(** * Movies service: routes/movies.py and schemas/movies.py

    A shallow embedding of the request handlers of [src/routes/movies.py]
    and of the pydantic schemas of [src/schemas/movies.py].

    Modelling conventions.
    - A Python [float] is a rational [Q]: the code only compares floats
      with the constants 0 and 100. NaN and the infinities are not
      modelled.
    - A [datetime.date] is its proleptic Gregorian ordinal ([date.toordinal]),
      a [Z]; [d + timedelta(days=n)] is [d + n] and date comparison is
      comparison of ordinals.
    - A [str] is a [string]; its length is the number of its characters.
    - An ORM object is a surrogate id together with its column values, a
      finite map from attribute names to dynamically typed values.
    - The database session is threaded explicitly: a handler is a function
      from the store to an outcome and the store at the moment the handler
      returns or raises, so that what a failing handler has already written
      stays visible.
    - [database/models.py] declares the tables and is outside this
      development: a table is the list of its rows in insertion order, a
      movie row keeps the links the handler hands to the session, what a
      load returns for them follows the specification (see [selectinload]),
      and failures of the storage layer (constraint violations, lost
      connections) are not modelled. *)

From Stdlib Require Import ZArith QArith Lia List String Ascii.
From stdpp Require Import base option list gmap strings pretty sorting.

Local Open Scope string_scope.
Local Open Scope list_scope.
Local Open Scope Z_scope.

(** ** Values and rows *)

Module Py.

#[global] Instance Q_eq_dec : EqDecision Q.
Proof. solve_decision. Defined.

(** The values an attribute of an ORM object holds here. *)
Inductive value :=
  | VNone
  | VStr (s : string)
  | VDate (d : Z)
  | VFloat (q : Q).

#[global] Instance value_eq_dec : EqDecision value.
Proof. solve_decision. Defined.

(** [x or y] on an optional string. *)
Definition str_or (x : option string) (y : string) : string :=
  match x with
  | Some s => if decide (s = "") then y else s
  | None => y
  end.

End Py.
Import Py.

(** The four reference models of [database.models] that [get_or_create]
    is called on. *)
Inductive RefModel := CountryModel | GenreModel | ActorModel | LanguageModel.

#[global] Instance RefModel_eq_dec : EqDecision RefModel.
Proof. solve_decision. Defined.

(** A row of a reference table. *)
Record Row := mkRow {
  row_id : Z;
  row_cols : gmap string value
}.

(** A row of the movies table: the scalar columns, the foreign key to the
    country and the links of the three many-to-many relations, in the order
    the collection holds them. *)
Module MovieModel.
Record t := mk {
  id : Z;
  cols : gmap string value;
  country : Z;
  genres : list Z;
  actors : list Z;
  languages : list Z
}.
End MovieModel.

Record DB := mkDB {
  db_movies : list MovieModel.t;
  db_countries : list Row;
  db_genres : list Row;
  db_actors : list Row;
  db_languages : list Row
}.

Definition db_table (db : DB) (model : RefModel) : list Row :=
  match model with
  | CountryModel => db_countries db
  | GenreModel => db_genres db
  | ActorModel => db_actors db
  | LanguageModel => db_languages db
  end.

Definition db_set_table (db : DB) (model : RefModel) (t : list Row) : DB :=
  match model with
  | CountryModel => mkDB (db_movies db) t (db_genres db) (db_actors db) (db_languages db)
  | GenreModel => mkDB (db_movies db) (db_countries db) t (db_actors db) (db_languages db)
  | ActorModel => mkDB (db_movies db) (db_countries db) (db_genres db) t (db_languages db)
  | LanguageModel => mkDB (db_movies db) (db_countries db) (db_genres db) (db_actors db) t
  end.

Definition db_set_movies (db : DB) (ms : list MovieModel.t) : DB :=
  mkDB ms (db_countries db) (db_genres db) (db_actors db) (db_languages db).

Definition empty_db : DB := mkDB [] [] [] [] [].

(** ** Exceptions and the handler monad *)

(** What a handler can raise: the [HTTPException]s of the routes, the
    request validation error of the schemas (one entry per offending
    field), and the two exceptions of [scalar_one] / [scalar_one_or_none]. *)
Inductive error :=
  | HTTPException (status_code : Z) (detail : string)
  | RequestValidationError (errors : list (string * string))
  | MultipleResultsFound
  | NoResultFound.

(** A handler runs against the session: it yields a value or raises, and
    in both cases leaves the session in some state. *)
Definition Handler (A : Type) : Type := DB → (error + A) * DB.

#[global] Instance Handler_ret : MRet Handler :=
  λ A (a : A) db, (inr a, db).

#[global] Instance Handler_bind : MBind Handler :=
  λ A B (f : A → Handler B) (m : Handler A) db,
    match m db with
    | (inr a, db') => f a db'
    | (inl e, db') => (inl e, db')
    end.

Definition raise {A} (e : error) : Handler A := λ db, (inl e, db).
Definition session : Handler DB := λ db, (inr db, db).
Definition put_session (db' : DB) : Handler unit := λ _, (inr tt, db').

(** [Result.scalar_one_or_none()]. *)
Definition scalar_one_or_none {A} (rows : list A) : Handler (option A) :=
  match rows with
  | [] => mret None
  | [r] => mret (Some r)
  | _ => raise MultipleResultsFound
  end.

(** [Result.scalar_one()]. *)
Definition scalar_one {A} (rows : list A) : Handler A :=
  match rows with
  | [] => raise NoResultFound
  | [r] => mret r
  | _ => raise MultipleResultsFound
  end.

(** ** get_or_create *)

(** [filter_by] over the keyword arguments: every supplied column equals
    the supplied value. *)
Definition filter_by (kwargs : gmap string value) (r : Row) : Prop :=
  kwargs ⊆ row_cols r.

#[global] Instance filter_by_dec kwargs r : Decision (filter_by kwargs r).
Proof. unfold filter_by. apply _. Defined.

(** The surrogate key the store gives to a new row. *)
Definition next_id (ids : list Z) : Z := 1 + foldr Z.max 0 ids.

(** [db.add(obj); await db.flush()] for a reference row built by the model
    constructor from the keyword arguments. *)
Definition add_flush (model : RefModel) (kwargs : gmap string value) : Handler Row :=
  db ← session;
  let t := db_table db model in
  let obj := mkRow (next_id (row_id <$> t)) kwargs in
  _ ← put_session (db_set_table db model (t ++ [obj]));
  mret obj.

Definition get_or_create (model : RefModel) (kwargs : gmap string value) : Handler Row :=
  db ← session;
  obj ← scalar_one_or_none (filter (filter_by kwargs) (db_table db model));
  match obj with
  | Some o => mret o
  | None => add_flush model kwargs
  end.

(** ** Dates *)

Module Date.

(** [date.fromordinal(n)] as (year, month, day). *)
Definition ord2ymd (n : Z) : Z * Z * Z :=
  let z := n + 305 in
  let era := z / 146097 in
  let doe := z - era * 146097 in
  let yoe := (doe - doe / 1460 + doe / 36524 - doe / 146096) / 365 in
  let doy := doe - (365 * yoe + yoe / 4 - yoe / 100) in
  let mp := (5 * doy + 2) / 153 in
  let d := doy - (153 * mp + 2) / 5 + 1 in
  let m := if decide (mp < 10) then mp + 3 else mp - 9 in
  let y := yoe + era * 400 + (if decide (m ≤ 2) then 1 else 0) in
  (y, m, d).

(** Zero padding of a decimal number to [w] digits. *)
Definition zfill (w : nat) (s : string) : string :=
  String.string_of_list_ascii (replicate (w - String.length s) "0"%char) +:+ s.

(** [str(d)] of a date: [YYYY-MM-DD]. *)
Definition isoformat (n : Z) : string :=
  let '(y, m, d) := ord2ymd n in
  zfill 4 (pretty y) +:+ "-" +:+ zfill 2 (pretty m) +:+ "-" +:+ zfill 2 (pretty d).

End Date.

(** ** Schemas *)

Module MovieCreateSchema.

Record t := mk {
  name : string;
  date : Z;
  score : Q;
  overview : option string;
  status : string;
  budget : Q;
  revenue : Q;
  country : string;
  genres : list string;
  actors : list string;
  languages : list string
}.

(** A field validator returns its value or raises [ValueError]. *)
Definition validate_score (v : Q) : string + Q :=
  if negb (Qle_bool 0 v && Qle_bool v 100)
  then inl "Score must be between 0 and 100"
  else inr v.

Definition validate_money (v : Q) : string + Q :=
  if Qlt_le_dec v 0 then inl "Must be non-negative" else inr v.

(** [Field(max_length=n)] on a string. *)
Definition max_length (n : nat) (v : string) : string + string :=
  if decide (n < String.length v)%nat
  then inl ("String should have at most " +:+ pretty n +:+ " characters")
  else inr v.

Definition field_errors {A} (field : string) (r : string + A) : list (string * string) :=
  match r with
  | inl msg => [(field, msg)]
  | inr _ => []
  end.

(** The errors that constructing the schema reports, field by field in
    declaration order; the instance is built when there are none. *)
Definition errors (data : t) : list (string * string) :=
  field_errors "name" (max_length 255 (name data)) ++
  field_errors "score" (validate_score (score data)) ++
  field_errors "budget" (validate_money (budget data)) ++
  field_errors "revenue" (validate_money (revenue data)).

End MovieCreateSchema.

(** The hydrated movie that the detail queries load: the row with its
    country and the rows its links point to ([selectinload]). *)
Record MovieDetail := mkDetail {
  detail_id : Z;
  detail_cols : gmap string value;
  detail_country : option Row;
  detail_genres : list Row;
  detail_actors : list Row;
  detail_languages : list Row
}.

Definition by_id (id : Z) (t : list Row) : list Row :=
  filter (λ r, row_id r = id) t.

(** Modelled from the spec: the association tables of [database/models.py]
    (movie-genre, movie-actor, movie-language), from which the relations
    of a movie are loaded. The specification makes each relation an
    order-irrelevant set, "a set, not a multiset", in which duplicates
    "collapse to one link each": a row is linked to the movie or it is not.
    The load returns every linked row once, in the order of its table. *)
Definition linked (links : list Z) (t : list Row) : list Row :=
  filter (λ r, row_id r ∈ links) t.

Definition selectinload (db : DB) (m : MovieModel.t) : MovieDetail :=
  {| detail_id := MovieModel.id m;
     detail_cols := MovieModel.cols m;
     detail_country := head (by_id (MovieModel.country m) (db_countries db));
     detail_genres := linked (MovieModel.genres m) (db_genres db);
     detail_actors := linked (MovieModel.actors m) (db_actors db);
     detail_languages := linked (MovieModel.languages m) (db_languages db) |}.

(** [select(MovieModel).options(selectinload ...).where(MovieModel.id == id)]. *)
Definition select_detail (db : DB) (id : Z) : list MovieDetail :=
  selectinload db <$> filter (λ m, MovieModel.id m = id) (db_movies db).

(** ** create_movie *)

(** [select(MovieModel).where(MovieModel.name == name, MovieModel.date == date)]. *)
Definition same_name_date (name : string) (date : Z) (m : MovieModel.t) : Prop :=
  MovieModel.cols m !! "name" = Some (VStr name) ∧ MovieModel.cols m !! "date" = Some (VDate date).

#[global] Instance same_name_date_dec name date m : Decision (same_name_date name date m).
Proof. unfold same_name_date. apply _. Defined.

Definition conflict_detail (name : string) (date : Z) : string :=
  "A movie with the name '" +:+ name +:+ "' and release date '"
    +:+ Date.isoformat date +:+ "' already exists.".

(** [db.add(movie); await db.commit()]: the movie gets its id and is stored. *)
Definition add_commit (cols : gmap string value) (country : Row)
    (genres actors languages : list Row) : Handler MovieModel.t :=
  db ← session;
  let movie := MovieModel.mk (next_id (MovieModel.id <$> db_movies db)) cols (row_id country)
                 (row_id <$> genres) (row_id <$> actors) (row_id <$> languages) in
  _ ← put_session (db_set_movies db (db_movies db ++ [movie]));
  mret movie.

Definition create_movie (today : Z) (data : MovieCreateSchema.t) : Handler MovieDetail :=
  let '(MovieCreateSchema.mk name date score overview status budget revenue
          country genres actors languages) := data in
  if decide (today + 365 < date) then
    raise (HTTPException 400 "Invalid input data.")
  else
    db ← session;
    existing_movie ← scalar_one_or_none (filter (same_name_date name date) (db_movies db));
    match existing_movie with
    | Some _ => raise (HTTPException 409 (conflict_detail name date))
    | None =>
      country ← get_or_create CountryModel {[ "code" := VStr country ]};
      let cols : gmap string value :=
        {[ "name" := VStr name; "date" := VDate date; "score" := VFloat score;
           "overview" := VStr (str_or overview ""); "status" := VStr status;
           "budget" := VFloat budget; "revenue" := VFloat revenue ]} in
      genres ← mapM (λ g, get_or_create GenreModel {[ "name" := VStr g ]}) genres;
      actors ← mapM (λ a, get_or_create ActorModel {[ "name" := VStr a ]}) actors;
      languages ← mapM (λ l, get_or_create LanguageModel {[ "name" := VStr l ]}) languages;
      movie ← add_commit cols country genres actors languages;
      db ← session;
      scalar_one (select_detail db (MovieModel.id movie))
    end.

(** [POST /movies/]: the body is validated into the schema, then the
    handler runs. *)
Definition POST_movies (today : Z) (body : MovieCreateSchema.t) : Handler MovieDetail :=
  match MovieCreateSchema.errors body with
  | [] => create_movie today body
  | errs => raise (RequestValidationError errs)
  end.

(** ** get_movie *)

Definition not_found : error :=
  HTTPException 404 "Movie with the given ID was not found.".

Definition get_movie (movie_id : Z) : Handler MovieDetail :=
  db ← session;
  movie ← scalar_one_or_none (select_detail db movie_id);
  match movie with
  | None => raise not_found
  | Some movie => mret movie
  end.

(** ** update_movie *)

Module MovieUpdateSchema.

(** A field of the body is unset ([None]), set to null ([Some None]) or
    set to a value. *)
Record t := mk {
  name : option (option string);
  date : option (option Z);
  score : option (option Q);
  overview : option (option string);
  status : option (option string);
  budget : option (option Q);
  revenue : option (option Q)
}.

Definition validate_score (v : option Q) : string + option Q :=
  match v with
  | Some q =>
      if negb (Qle_bool 0 q && Qle_bool q 100)
      then inl "Score must be between 0 and 100"
      else inr v
  | None => inr v
  end.

Definition validate_money (v : option Q) : string + option Q :=
  match v with
  | Some q => if Qlt_le_dec q 0 then inl "Must be non-negative" else inr v
  | None => inr v
  end.

Definition max_length (n : nat) (v : option string) : string + option string :=
  match v with
  | Some s =>
      match MovieCreateSchema.max_length n s with
      | inl msg => inl msg
      | inr _ => inr v
      end
  | None => inr v
  end.

(** The field [date: Optional[date] = None]. In the class body the name
    [date] is bound to [None] by the default before the annotation is
    evaluated, so the annotation reads [Optional[None]]: the field admits
    [None] and nothing else. *)
Definition none_only {A} (v : option A) : string + option A :=
  match v with
  | Some _ => inl "Input should be None"
  | None => inr v
  end.

(** Validation only sees the fields the body sets. *)
Definition field_errors {A} (field : string) (check : option A → string + option A)
    (f : option (option A)) : list (string * string) :=
  match f with
  | None => []
  | Some v => MovieCreateSchema.field_errors field (check v)
  end.

Definition errors (data : t) : list (string * string) :=
  field_errors "name" (max_length 255) (name data) ++
  field_errors "date" none_only (date data) ++
  field_errors "score" validate_score (score data) ++
  field_errors "budget" validate_money (budget data) ++
  field_errors "revenue" validate_money (revenue data).

Definition dump_field {A} (key : string) (inj : A → value) (f : option (option A))
    : list (string * value) :=
  match f with
  | None => []
  | Some None => [(key, VNone)]
  | Some (Some a) => [(key, inj a)]
  end.

(** [data.model_dump(exclude_unset=True)]: the items of the fields the
    body sets, in declaration order. *)
Definition model_dump_exclude_unset (data : t) : list (string * value) :=
  dump_field "name" VStr (name data) ++
  dump_field "date" VDate (date data) ++
  dump_field "score" VFloat (score data) ++
  dump_field "overview" VStr (overview data) ++
  dump_field "status" VStr (status data) ++
  dump_field "budget" VFloat (budget data) ++
  dump_field "revenue" VFloat (revenue data).

End MovieUpdateSchema.

(** [setattr(movie, key, value)] for a column attribute. *)
Definition setattr (movie : MovieModel.t) (key : string) (v : value) : MovieModel.t :=
  MovieModel.mk (MovieModel.id movie) (<[key := v]> (MovieModel.cols movie)) (MovieModel.country movie)
    (MovieModel.genres movie) (MovieModel.actors movie) (MovieModel.languages movie).

(** One step of the loop [for key, value in update_data.items()]. *)
Definition assign (m : MovieModel.t) (kv : string * value) : MovieModel.t :=
  setattr m kv.1 kv.2.

(** [await db.commit()] after attribute assignment on a loaded movie: its
    row is written back. *)
Definition commit_movie (movie : MovieModel.t) : Handler unit :=
  db ← session;
  put_session (db_set_movies db
    ((λ m, if decide (MovieModel.id m = MovieModel.id movie) then movie else m) <$> db_movies db)).

Definition update_movie (movie_id : Z) (data : MovieUpdateSchema.t) : Handler string :=
  db ← session;
  movie ← scalar_one_or_none (filter (λ m, MovieModel.id m = movie_id) (db_movies db));
  match movie with
  | None => raise not_found
  | Some movie =>
      let update_data := MovieUpdateSchema.model_dump_exclude_unset data in
      let movie := foldl assign movie update_data in
      _ ← commit_movie movie;
      mret "Movie updated successfully."
  end.

(** [PATCH /movies/{movie_id}/]. *)
Definition PATCH_movie (movie_id : Z) (body : MovieUpdateSchema.t) : Handler string :=
  match MovieUpdateSchema.errors body with
  | [] => update_movie movie_id body
  | errs => raise (RequestValidationError errs)
  end.

(** ** delete_movie *)

(** [await db.delete(movie); await db.commit()]: the row of the loaded
    movie leaves the table, and its links with it. *)
Definition delete_commit (movie : MovieModel.t) : Handler unit :=
  db ← session;
  put_session (db_set_movies db
    (filter (λ m, MovieModel.id m ≠ MovieModel.id movie) (db_movies db))).

Definition delete_movie (movie_id : Z) : Handler unit :=
  db ← session;
  movie ← scalar_one_or_none (filter (λ m, MovieModel.id m = movie_id) (db_movies db));
  match movie with
  | None => raise not_found
  | Some movie => delete_commit movie
  end.

(** ** get_movies *)

Definition BASE_URL : string := "/theater/movies".

(** [ceil(a / b)] for a count [a] and a page size [b ≥ 1]. Python divides
    in floating point; for row counts the quotient is exact enough for the
    ceiling to be the integer one. *)
Definition ceil_div (a b : Z) : Z := - ((- a) / b).

(** What [MovieListItemSchema] keeps of a movie. *)
Record MovieListItem := mkItem {
  item_id : Z;
  item_name : option value;
  item_date : option value;
  item_score : option value;
  item_overview : option value
}.

Definition list_item (m : MovieModel.t) : MovieListItem :=
  mkItem (MovieModel.id m) (MovieModel.cols m !! "name") (MovieModel.cols m !! "date")
    (MovieModel.cols m !! "score") (MovieModel.cols m !! "overview").

Record MovieListResponse := mkList {
  movies : list MovieListItem;
  prev_page : option string;
  next_page : option string;
  total_pages : Z;
  total_items : Z
}.

(** [MovieModel.id.desc()]. *)
Definition id_desc (a b : MovieModel.t) : Prop := MovieModel.id b ≤ MovieModel.id a.

#[global] Instance id_desc_dec : RelDecision id_desc.
Proof. intros a b. unfold id_desc. apply _. Defined.

Definition page_url (page per_page : Z) : string :=
  BASE_URL +:+ "/?page=" +:+ pretty page +:+ "&per_page=" +:+ pretty per_page.

Definition no_movies : error := HTTPException 404 "No movies found.".

Definition get_movies (page per_page : Z) : Handler MovieListResponse :=
  db ← session;
  let total_items := Z.of_nat (length (db_movies db)) in
  if decide (total_items = 0) then raise no_movies
  else
    let total_pages := ceil_div total_items per_page in
    if decide (total_pages < page) then raise no_movies
    else
      let offset := (page - 1) * per_page in
      let movies :=
        take (Z.to_nat per_page)
          (drop (Z.to_nat offset) (merge_sort id_desc (db_movies db))) in
      mret {| movies := list_item <$> movies;
              total_pages := total_pages;
              total_items := total_items;
              prev_page := if decide (1 < page) then Some (page_url (page - 1) per_page)
                           else None;
              next_page := if decide (page < total_pages)
                           then Some (page_url (page + 1) per_page) else None |}.

(** The [Query] constraints of the two parameters. *)
Definition query_errors (page per_page : Z) : list (string * string) :=
  (if decide (page < 1) then [("page", "Input should be greater than or equal to 1")]
   else []) ++
  (if decide (per_page < 1)
   then [("per_page", "Input should be greater than or equal to 1")]
   else if decide (20 < per_page)
   then [("per_page", "Input should be less than or equal to 20")]
   else []).

(** [GET /movies/?page=&per_page=]. *)
Definition GET_movies (page per_page : Z) : Handler MovieListResponse :=
  match query_errors page per_page with
  | [] => get_movies page per_page
  | errs => raise (RequestValidationError errs)
  end.

(** ** Invariants of the store *)

(** A reference table keyed by the column [key]: ids are distinct and no
    two rows carry the same value in the key column. *)
Definition table_wf (key : string) (t : list Row) : Prop :=
  NoDup (row_id <$> t) ∧ NoDup ((λ r, row_cols r !! key) <$> t).

(** Countries are keyed by their code, the other reference rows by name. *)
Definition natural_key (model : RefModel) : string :=
  match model with
  | CountryModel => "code"
  | _ => "name"
  end.

Definition refs_wf (db : DB) : Prop :=
  ∀ model, table_wf (natural_key model) (db_table db model).

(** The pair (name, date) identifies a stored movie. *)
Definition movies_unique (db : DB) : Prop :=
  NoDup ((λ m, (MovieModel.cols m !! "name", MovieModel.cols m !! "date")) <$> db_movies db).

(** The name a reference row carries, if any. *)
Definition row_name (r : Row) : option string :=
  match row_cols r !! "name" with
  | Some (VStr s) => Some s
  | _ => None
  end.

(** The resolved rows of a list of names: one per entry, each a row of the
    table that carries the name of its entry. *)
Definition resolved (db : DB) (model : RefModel) (names : list string) (rows : list Row) : Prop :=
  Forall2 (λ g r, r ∈ db_table db model ∧
                  row_cols r !! natural_key model = Some (VStr g)) names rows.

(** The reference tables only grow. *)
Definition extends (db db' : DB) : Prop :=
  ∀ model r, r ∈ db_table db model → r ∈ db_table db' model.

(** The column values [create_movie] passes to the [MovieModel]
    constructor. *)
Definition created_cols (data : MovieCreateSchema.t) : gmap string value :=
  {[ "name" := VStr (MovieCreateSchema.name data);
     "date" := VDate (MovieCreateSchema.date data);
     "score" := VFloat (MovieCreateSchema.score data);
     "overview" := VStr (str_or (MovieCreateSchema.overview data) "");
     "status" := VStr (MovieCreateSchema.status data);
     "budget" := VFloat (MovieCreateSchema.budget data);
     "revenue" := VFloat (MovieCreateSchema.revenue data) ]}.

(** What a field of the update body does to the stored column: an unset
    field keeps it, a field set to [None] stores [None], a field set to a
    value stores the value. *)
Definition assigned {A} (inj : A → value) (f : option (option A)) (old : option value)
    : option value :=
  match f with
  | None => old
  | Some None => Some VNone
  | Some (Some a) => Some (inj a)
  end.

(** The attributes [MovieUpdateSchema] declares. *)
Definition updatable : list string :=
  ["name"; "date"; "score"; "overview"; "status"; "budget"; "revenue"].

(** Movie ids are distinct. *)
Definition ids_unique (db : DB) : Prop := NoDup (MovieModel.id <$> db_movies db).

(** The movies of a page of the list, nothing when the request fails. *)
Definition page_movies (page per_page : Z) (db : DB) : list MovieListItem :=
  match (GET_movies page per_page db).1 with
  | inr resp => movies resp
  | inl _ => []
  end.

(** The update body that sets no field. *)
Definition empty_update : MovieUpdateSchema.t :=
  MovieUpdateSchema.mk None None None None None None None.

(** What the update body does to the column [key]. *)
Definition updated (data : MovieUpdateSchema.t) (key : string) (old : option value)
    : option value :=
  if decide (key = "name") then assigned VStr (MovieUpdateSchema.name data) old
  else if decide (key = "date") then assigned VDate (MovieUpdateSchema.date data) old
  else if decide (key = "score") then assigned VFloat (MovieUpdateSchema.score data) old
  else if decide (key = "overview") then assigned VStr (MovieUpdateSchema.overview data) old
  else if decide (key = "status") then assigned VStr (MovieUpdateSchema.status data) old
  else if decide (key = "budget") then assigned VFloat (MovieUpdateSchema.budget data) old
  else if decide (key = "revenue") then assigned VFloat (MovieUpdateSchema.revenue data) old
  else old.

(** Every table of [db'] starts with the rows of [db]. *)
Definition grows (db db' : DB) : Prop :=
  (∀ model, db_table db model `prefix_of` db_table db' model) ∧
  db_movies db `prefix_of` db_movies db'.

(** ** Sample requests and stores *)

Module Sample.

(** 2024-01-15, the day the sample requests are made. *)
Definition today : Z := 738900.

Definition dune : MovieCreateSchema.t :=
  MovieCreateSchema.mk "Dune" 738946 (80 # 1) None "Released" (165 # 1) (400 # 1)
    "US" ["Sci-Fi"; "Drama"] ["Zendaya"] ["English"].

(** The same request with a genre named twice. *)
Definition dune_twice_scifi : MovieCreateSchema.t :=
  MovieCreateSchema.mk "Dune" 738946 (80 # 1) None "Released" (165 # 1) (400 # 1)
    "US" ["Sci-Fi"; "Sci-Fi"] ["Zendaya"] ["English"].

(** The request with a genre named twice, and the same request with its
    genres in another order. *)
Definition dune_repeated : MovieCreateSchema.t :=
  MovieCreateSchema.mk "Dune" 738946 (80 # 1) None "Released" (165 # 1) (400 # 1)
    "US" ["Sci-Fi"; "Drama"; "Sci-Fi"] ["Zendaya"] ["English"].

Definition dune_reordered : MovieCreateSchema.t :=
  MovieCreateSchema.mk "Dune" 738946 (80 # 1) None "Released" (165 # 1) (400 # 1)
    "US" ["Drama"; "Sci-Fi"; "Sci-Fi"] ["Zendaya"] ["English"].

(** The store after [dune] has been created in an empty one. *)
Definition stored : DB := (POST_movies today dune empty_db).2.

(** An update body that only sets the release date, to 2025-02-18, 400
    days after [today]. *)
Definition postpone : MovieUpdateSchema.t :=
  MovieUpdateSchema.mk None (Some (Some (today + 400))) None None None None None.

(** A create request dated 2025-02-18. *)
Definition dune_postponed : MovieCreateSchema.t :=
  MovieCreateSchema.mk "Dune" (today + 400) (80 # 1) None "Released" (165 # 1) (400 # 1)
    "US" ["Sci-Fi"; "Drama"] ["Zendaya"] ["English"].

(** The update [{"score": 50}]. *)
Definition rescore : MovieUpdateSchema.t :=
  MovieUpdateSchema.mk None None (Some (Some (50 # 1))) None None None None.

(** An update that clears the overview and leaves everything else out. *)
Definition clear_overview : MovieUpdateSchema.t :=
  MovieUpdateSchema.mk None None None (Some None) None None None.

(** Twenty-five movies, created one after the other. *)
Definition numbered (i : Z) : MovieCreateSchema.t :=
  MovieCreateSchema.mk ("Movie " +:+ pretty i) (738000 + i) (80 # 1) None "Released"
    (1 # 1) (2 # 1) "US" ["Drama"] [] ["English"].

Definition library : DB :=
  foldl (λ db i, (POST_movies today (numbered i) db).2) empty_db (seqZ 1 25).

(** A request whose only fault is a name of 256 characters. *)
Definition long_name : string := String.string_of_list_ascii (replicate 256 "a"%char).

Definition dune_long_name : MovieCreateSchema.t :=
  MovieCreateSchema.mk long_name 738946 (80 # 1) None "Released" (165 # 1) (400 # 1)
    "US" ["Sci-Fi"; "Drama"] ["Zendaya"] ["English"].

End Sample.

(** * Properties *)

(** ** The store *)

Lemma db_table_set db model t : db_table (db_set_table db model t) model = t.
Proof. by destruct model. Qed.

Lemma db_table_set_ne db model model' t :
  model' ≠ model → db_table (db_set_table db model t) model' = db_table db model'.
Proof. by destruct model, model'. Qed.

Lemma db_movies_set_table db model t : db_movies (db_set_table db model t) = db_movies db.
Proof. by destruct model. Qed.

Lemma db_set_table_id db model : db_set_table db model (db_table db model) = db.
Proof. by destruct db, model. Qed.

Lemma next_id_gt ids i : i ∈ ids → i < next_id ids.
Proof.
  unfold next_id. induction ids as [|j ids IH]; simpl.
  - by intros ?%elem_of_nil.
  - intros [->|Hi%IH]%elem_of_cons; lia.
Qed.

Lemma next_id_fresh ids : next_id ids ∉ ids.
Proof. intros H%next_id_gt. lia. Qed.

(** A query that finds at most one row finds none or exactly that one. *)
Lemma at_most_one {A} (l : list A) :
  (length l ≤ 1)%nat → l = [] ∨ ∃ r, l = [r].
Proof. destruct l as [|r [|]]; simpl; eauto; lia. Qed.

Lemma filter_none {A} (P : A → Prop) `{!∀ x, Decision (P x)} (l : list A) :
  (∀ x, x ∈ l → ¬ P x) → filter P l = [].
Proof.
  induction l as [|y l IH]; intros Hl; [done|].
  rewrite filter_cons_False by (apply Hl; left).
  apply IH. intros x Hx. apply Hl. by right.
Qed.

Lemma NoDup_fmap_filter {A B} (f : A → B) (P : A → Prop) `{!∀ x, Decision (P x)}
    (l : list A) :
  NoDup (f <$> l) → NoDup (f <$> filter P l).
Proof.
  induction l as [|x l IH]; [done|].
  rewrite fmap_cons. intros [Hx Hnd]%NoDup_cons.
  destruct (decide (P x)).
  - rewrite filter_cons_True by done. rewrite fmap_cons. apply NoDup_cons.
    split; [|by apply IH]. intros Hin. apply Hx.
    apply list_elem_of_fmap in Hin as (y & -> & Hy).
    apply list_elem_of_filter in Hy as [_ Hy]. apply list_elem_of_fmap. by exists y.
  - rewrite filter_cons_False by done. by apply IH.
Qed.

Lemma filter_singleton_elem {A} (P : A → Prop) `{!∀ x, Decision (P x)} (l : list A) r x :
  filter P l = [r] → x ∈ l → P x → x = r.
Proof.
  intros Hf Hx HP.
  assert (x ∈ filter P l) as Hin by (by apply list_elem_of_filter).
  rewrite Hf in Hin. by apply list_elem_of_singleton in Hin.
Qed.

(** ** get_or_create *)

Lemma get_or_create_found model kwargs db r :
  filter (filter_by kwargs) (db_table db model) = [r] →
  get_or_create model kwargs db = (inr r, db).
Proof. intros Hf. unfold get_or_create, mbind, Handler_bind, session. by rewrite Hf. Qed.

Lemma get_or_create_absent model kwargs db :
  filter (filter_by kwargs) (db_table db model) = [] →
  get_or_create model kwargs db =
    (inr (mkRow (next_id (row_id <$> db_table db model)) kwargs),
     db_set_table db model
       (db_table db model ++ [mkRow (next_id (row_id <$> db_table db model)) kwargs])).
Proof. intros Hf. unfold get_or_create, mbind, Handler_bind, session. by rewrite Hf. Qed.

Lemma get_or_create_raises model kwargs db e db' :
  get_or_create model kwargs db = (inl e, db') → e = MultipleResultsFound ∧ db' = db.
Proof.
  unfold get_or_create, mbind, Handler_bind, session.
  destruct (filter _ _) as [|r [|r' l]]; simpl; intros [= <- <-]; done.
Qed.

(** C2. The resolver on a table in which at most one row matches the
    supplied fields: it returns a row that matches them all; if a row of
    the table matches, that very row is returned and the store is left as
    it is; if none matches, a new row holding exactly the supplied fields
    is appended under a fresh id, the other tables being untouched. In
    both cases the row is visible afterwards: exactly one row of the table
    matches, and resolving the same fields again returns the same row and
    changes nothing. *)
Theorem get_or_create_resolves (model : RefModel) (kwargs : gmap string value) (db : DB) :
  (length (filter (filter_by kwargs) (db_table db model)) ≤ 1)%nat →
  ∃ obj db',
    get_or_create model kwargs db = (inr obj, db') ∧
    filter_by kwargs obj ∧
    (∀ r, r ∈ db_table db model → filter_by kwargs r → obj = r ∧ db' = db) ∧
    ((∀ r, r ∈ db_table db model → ¬ filter_by kwargs r) →
       row_cols obj = kwargs ∧
       (row_id obj ∉ row_id <$> db_table db model) ∧
       db' = db_set_table db model (db_table db model ++ [obj])) ∧
    filter (filter_by kwargs) (db_table db' model) = [obj] ∧
    get_or_create model kwargs db' = (inr obj, db').
Proof.
  intros [Hf|[r Hf]]%at_most_one.
  - eexists _, _. split; [by apply get_or_create_absent|].
    set (obj := mkRow _ _).
    assert (filter (filter_by kwargs) (db_table db model ++ [obj]) = [obj]) as Hf'.
    { rewrite filter_app, Hf. simpl. rewrite filter_cons_True; [done|].
      unfold filter_by. done. }
    split_and!.
    + unfold filter_by. done.
    + intros r Hr Hm. exfalso.
      assert (r ∈ filter (filter_by kwargs) (db_table db model)) as Hin
        by (by apply list_elem_of_filter).
      rewrite Hf in Hin. by apply elem_of_nil in Hin.
    + intros _. split_and!; [done| apply next_id_fresh | done].
    + by rewrite db_table_set.
    + apply get_or_create_found. by rewrite db_table_set.
  - exists r, db. split; [by apply get_or_create_found|].
    assert (r ∈ filter (filter_by kwargs) (db_table db model)) as Hin
      by (rewrite Hf; apply list_elem_of_singleton; done).
    apply list_elem_of_filter in Hin as [Hm Hr].
    split_and!.
    + done.
    + intros r' Hr' Hm'. split; [|done].
      symmetry. by eapply filter_singleton_elem.
    + intros Hnone. by destruct (Hnone r Hr Hm).
    + done.
    + by apply get_or_create_found.
Qed.

(** ** Keyed tables *)

Lemma filter_by_singleton key v r :
  filter_by {[ key := v ]} r ↔ row_cols r !! key = Some v.
Proof. unfold filter_by. apply map_singleton_subseteq_l. Qed.

Lemma filter_by_none key v (t : list Row) :
  Some v ∉ ((λ r, row_cols r !! key) <$> t) →
  filter (filter_by {[ key := v ]}) t = [].
Proof.
  induction t as [|r t IH]; [done|].
  rewrite fmap_cons, not_elem_of_cons. intros [Hr Ht].
  rewrite filter_cons_False; [by apply IH|].
  rewrite filter_by_singleton. congruence.
Qed.

Lemma table_wf_at_most_one key v t :
  table_wf key t → (length (filter (filter_by {[ key := v ]}) t) ≤ 1)%nat.
Proof.
  intros [_ Hk]. induction t as [|r t IH]; [simpl; lia|].
  rewrite fmap_cons in Hk. apply NoDup_cons in Hk as [Hr Hk].
  destruct (decide (filter_by {[ key := v ]} r)) as [Hm|Hm].
  - rewrite filter_cons_True by done.
    apply filter_by_singleton in Hm. rewrite Hm in Hr.
    rewrite filter_by_none by done. simpl; lia.
  - rewrite filter_cons_False by done. by apply IH.
Qed.

Lemma table_wf_snoc key t v :
  table_wf key t →
  filter (filter_by {[ key := v ]}) t = [] →
  table_wf key (t ++ [mkRow (next_id (row_id <$> t)) {[ key := v ]}]).
Proof.
  intros [Hi Hk] Hf. split; rewrite fmap_app; simpl.
  - apply NoDup_app. split_and!; [done| |apply NoDup_singleton].
    intros i Hin ->%list_elem_of_singleton. by apply next_id_fresh in Hin.
  - apply NoDup_app. split_and!; [done| |apply NoDup_singleton].
    intros c Hin Hc%list_elem_of_singleton.
    rewrite lookup_singleton_eq in Hc. subst c.
    apply list_elem_of_fmap in Hin as (r & Hr & Hin).
    assert (r ∈ filter (filter_by {[ key := v ]}) t) as Hin'.
    { apply list_elem_of_filter. split; [|done]. by apply filter_by_singleton. }
    rewrite Hf in Hin'. by apply elem_of_nil in Hin'.
Qed.

(** One resolution on a keyed table: it succeeds, returns a row of the
    resulting table that carries the key, keeps the table keyed and only
    ever appends to it. *)
Lemma get_or_create_keyed model key v db :
  table_wf key (db_table db model) →
  ∃ obj db',
    get_or_create model {[ key := v ]} db = (inr obj, db') ∧
    table_wf key (db_table db' model) ∧
    obj ∈ db_table db' model ∧
    row_cols obj !! key = Some v ∧
    (∀ r, r ∈ db_table db model → r ∈ db_table db' model) ∧
    (∀ model', model' ≠ model → db_table db' model' = db_table db model') ∧
    db_movies db' = db_movies db.
Proof.
  intros Hwf.
  destruct (at_most_one _ (table_wf_at_most_one key v _ Hwf)) as [Hf|[r Hf]].
  - eexists _, _. split; [by apply get_or_create_absent|].
    rewrite db_table_set, db_movies_set_table. split_and!.
    + by apply table_wf_snoc.
    + apply elem_of_app. right. by apply list_elem_of_singleton.
    + simpl. by rewrite lookup_singleton_eq.
    + intros r Hr. apply elem_of_app. by left.
    + intros model' Hne. by apply db_table_set_ne.
    + done.
  - exists r, db. split; [by apply get_or_create_found|].
    assert (r ∈ filter (filter_by {[ key := v ]}) (db_table db model)) as Hin
      by (rewrite Hf; apply list_elem_of_singleton; done).
    apply list_elem_of_filter in Hin as [Hm Hr].
    apply filter_by_singleton in Hm. done.
Qed.

Lemma mapM_handler_cons {A B} (f : A → Handler B) x l db :
  mapM f (x :: l) db =
    match f x db with
    | (inr y, db1) =>
        match mapM f l db1 with
        | (inr k, db2) => (inr (y :: k), db2)
        | (inl e, db2) => (inl e, db2)
        end
    | (inl e, db1) => (inl e, db1)
    end.
Proof. reflexivity. Qed.

(** The list comprehension over the names: one resolved row per entry, in
    order. *)
Lemma resolve_names model key (names : list string) db :
  table_wf key (db_table db model) →
  ∃ rows db',
    mapM (λ g, get_or_create model {[ key := VStr g ]}) names db = (inr rows, db') ∧
    table_wf key (db_table db' model) ∧
    Forall2 (λ g r, r ∈ db_table db' model ∧ row_cols r !! key = Some (VStr g)) names rows ∧
    (∀ r, r ∈ db_table db model → r ∈ db_table db' model) ∧
    (∀ model', model' ≠ model → db_table db' model' = db_table db model') ∧
    db_movies db' = db_movies db.
Proof.
  revert db. induction names as [|g names IH]; intros db Hwf.
  - exists [], db. split_and!; done.
  - destruct (get_or_create_keyed model key (VStr g) db Hwf)
      as (r & db1 & Hr & Hwf1 & Hin1 & Hk1 & Hmono1 & Hoth1 & Hmov1).
    destruct (IH db1 Hwf1) as (rows & db2 & Hrows & Hwf2 & Hall & Hmono2 & Hoth2 & Hmov2).
    exists (r :: rows), db2. split_and!.
    + by rewrite mapM_handler_cons, Hr, Hrows.
    + done.
    + constructor; [|done]. split; [by apply Hmono2|done].
    + intros r' Hr'. by apply Hmono2, Hmono1.
    + intros model' Hne. rewrite Hoth2, Hoth1; done.
    + congruence.
Qed.

(** ** create_movie *)

Lemma bind_unfold {A B} (m : Handler A) (f : A → Handler B) db :
  (m ≫= f) db =
    match m db with
    | (inr a, db') => f a db'
    | (inl e, db') => (inl e, db')
    end.
Proof. reflexivity. Qed.

Lemma mapM_get_or_create_raises model (kw : string → gmap string value) names db e db' :
  mapM (λ g, get_or_create model (kw g)) names db = (inl e, db') →
  e = MultipleResultsFound.
Proof.
  revert db e db'. induction names as [|g names IH]; intros db e db'; [done|].
  rewrite mapM_handler_cons.
  destruct (get_or_create _ _ db) as [[e1|r] db1] eqn:Hr.
  - apply get_or_create_raises in Hr as [-> _]. by intros [= <- _].
  - destruct (mapM (M:=Handler) _ names db1) as [[e2|rows] db2] eqn:Hrows; [|done].
    apply IH in Hrows as ->. by intros [= <- _].
Qed.

Lemma scalar_one_raises {A} (rows : list A) db e db' :
  scalar_one rows db = (inl e, db') → e = MultipleResultsFound ∨ e = NoResultFound.
Proof. destruct rows as [|r [|r' l]]; intros [= <- _]; auto. Qed.

(** The errors of the handler, by the point at which they arise. Both
    [HTTPException]s are raised before anything is written. *)
Lemma create_movie_raises today data db e db' :
  create_movie today data db = (inl e, db') →
  (today + 365 < MovieCreateSchema.date data ∧
     e = HTTPException 400 "Invalid input data." ∧ db' = db) ∨
  (MovieCreateSchema.date data ≤ today + 365 ∧
     (∃ m, filter (same_name_date (MovieCreateSchema.name data) (MovieCreateSchema.date data))
             (db_movies db) = [m]) ∧
     e = HTTPException 409
           (conflict_detail (MovieCreateSchema.name data) (MovieCreateSchema.date data)) ∧
     db' = db) ∨
  (MovieCreateSchema.date data ≤ today + 365 ∧
     (e = MultipleResultsFound ∨ e = NoResultFound)).
Proof.
  destruct data as [name date score overview status budget revenue country genres actors languages].
  unfold create_movie; simpl. case_decide as Hd.
  { intros [= <- <-]. by left. }
  rewrite bind_unfold. simpl. rewrite bind_unfold.
  destruct (filter _ (db_movies db)) as [|m [|m' ms]] eqn:Hf; simpl.
  - assert (e = MultipleResultsFound ∨ e = NoResultFound →
      today + 365 < date ∧ e = HTTPException 400 "Invalid input data." ∧ db' = db
      ∨ date ≤ today + 365 ∧ (∃ m : MovieModel.t, [] = [m]) ∧
          e = HTTPException 409 (conflict_detail name date) ∧ db' = db
      ∨ date ≤ today + 365 ∧ (e = MultipleResultsFound ∨ e = NoResultFound)) as Hlate.
    { intros He. right. right. split; [lia|done]. }
    rewrite bind_unfold.
    destruct (get_or_create _ _ db) as [[e1|c] db1] eqn:Hc.
    { apply get_or_create_raises in Hc as [-> _]. intros [= <- _]. apply Hlate. by left. }
    rewrite bind_unfold.
    destruct (mapM (M:=Handler) _ genres db1) as [[e2|gs] db2] eqn:Hg.
    { apply mapM_get_or_create_raises in Hg as ->. intros [= <- _]. apply Hlate. by left. }
    rewrite bind_unfold.
    destruct (mapM (M:=Handler) _ actors db2) as [[e3|acs] db3] eqn:Ha.
    { apply mapM_get_or_create_raises in Ha as ->. intros [= <- _]. apply Hlate. by left. }
    rewrite bind_unfold.
    destruct (mapM (M:=Handler) _ languages db3) as [[e4|ls] db4] eqn:Hl.
    { apply mapM_get_or_create_raises in Hl as ->. intros [= <- _]. apply Hlate. by left. }
    rewrite bind_unfold. simpl. rewrite bind_unfold. simpl.
    intros He%scalar_one_raises. by apply Hlate.
  - intros [= <- <-]. right. left. split_and!; [lia|by eexists|done|done].
  - intros [= <- <-]. right. right. split; [lia|by left].
Qed.

Lemma extends_refl db : extends db db.
Proof. by intros model r. Qed.

Lemma extends_trans db1 db2 db3 : extends db1 db2 → extends db2 db3 → extends db1 db3.
Proof. intros H1 H2 model r Hr. by apply H2, H1. Qed.

Lemma resolved_extends db db' model names rows :
  extends db db' → resolved db model names rows → resolved db' model names rows.
Proof.
  intros Hext Hres. unfold resolved. eapply Forall2_impl; [exact Hres|].
  intros g r [Hin Hk]. split; [by apply Hext|done].
Qed.

Lemma resolve_names_wf model (names : list string) db :
  refs_wf db →
  ∃ rows db',
    mapM (λ g, get_or_create model {[ natural_key model := VStr g ]}) names db
      = (inr rows, db') ∧
    refs_wf db' ∧ extends db db' ∧ db_movies db' = db_movies db ∧
    resolved db' model names rows.
Proof.
  intros Hwf.
  destruct (resolve_names model (natural_key model) names db (Hwf model))
    as (rows & db' & Hrows & Hwf' & Hall & Hmono & Hoth & Hmov).
  exists rows, db'. split_and!; try done.
  - intros model'. destruct (decide (model' = model)) as [->|Hne]; [done|].
    rewrite Hoth by done. apply Hwf.
  - intros model' r. destruct (decide (model' = model)) as [->|Hne]; [apply Hmono|].
    by rewrite Hoth.
Qed.

Lemma get_or_create_wf model v db :
  refs_wf db →
  ∃ obj db',
    get_or_create model {[ natural_key model := v ]} db = (inr obj, db') ∧
    refs_wf db' ∧ extends db db' ∧ db_movies db' = db_movies db ∧
    obj ∈ db_table db' model ∧ row_cols obj !! natural_key model = Some v.
Proof.
  intros Hwf.
  destruct (get_or_create_keyed model (natural_key model) v db (Hwf model))
    as (obj & db' & Hobj & Hwf' & Hin & Hk & Hmono & Hoth & Hmov).
  exists obj, db'. split_and!; try done.
  - intros model'. destruct (decide (model' = model)) as [->|Hne]; [done|].
    rewrite Hoth by done. apply Hwf.
  - intros model' r. destruct (decide (model' = model)) as [->|Hne]; [apply Hmono|].
    by rewrite Hoth.
Qed.

(** Loading the rows behind a list of links. *)
Lemma by_id_elem (t : list Row) r :
  NoDup (row_id <$> t) → r ∈ t → by_id (row_id r) t = [r].
Proof.
  unfold by_id. induction t as [|r' t IH]; [by intros _ ?%elem_of_nil|].
  rewrite fmap_cons. intros [Hr' Hnd]%NoDup_cons [->|Hin]%elem_of_cons.
  - rewrite filter_cons_True by done. f_equal.
    apply filter_none. intros x Hx Heq. apply Hr'.
    rewrite <- Heq. apply list_elem_of_fmap. by exists x.
  - rewrite filter_cons_False; [by apply IH|].
    intros Heq. apply Hr'. rewrite Heq. apply list_elem_of_fmap. by exists r.
Qed.

Lemma resolved_elem db model names rows :
  resolved db model names rows → Forall (λ r, r ∈ db_table db model) rows.
Proof.
  unfold resolved. induction 1 as [|g r names rows [Hin _] _ IH]; constructor; done.
Qed.

Lemma db_table_set_movies db ms model : db_table (db_set_movies db ms) model = db_table db model.
Proof. by destruct model. Qed.

Lemma select_new_movie (ms : list MovieModel.t) (new : MovieModel.t) :
  MovieModel.id new = next_id (MovieModel.id <$> ms) →
  filter (λ m, MovieModel.id m = MovieModel.id new) (ms ++ [new]) = [new].
Proof.
  intros Hid. rewrite filter_app, filter_none.
  - by rewrite filter_cons_True.
  - intros m Hm Heq. apply (next_id_fresh (MovieModel.id <$> ms)).
    rewrite <- Hid, <- Heq. apply list_elem_of_fmap. by exists m.
Qed.

(** The handler past its two checks, on a store whose reference tables are
    keyed: it stores the movie under a fresh id with the links to the
    resolved rows, and returns it hydrated. *)
Lemma create_movie_succeeds today data db :
  refs_wf db →
  MovieCreateSchema.date data ≤ today + 365 →
  filter (same_name_date (MovieCreateSchema.name data) (MovieCreateSchema.date data))
    (db_movies db) = [] →
  ∃ c gs acs ls db',
    create_movie today data db =
      (inr (mkDetail (next_id (MovieModel.id <$> db_movies db)) (created_cols data)
              (Some c)
              (linked (row_id <$> gs) (db_genres db'))
              (linked (row_id <$> acs) (db_actors db'))
              (linked (row_id <$> ls) (db_languages db'))), db') ∧
    refs_wf db' ∧ extends db db' ∧
    db_movies db' = db_movies db ++
      [MovieModel.mk (next_id (MovieModel.id <$> db_movies db)) (created_cols data)
         (row_id c) (row_id <$> gs) (row_id <$> acs) (row_id <$> ls)] ∧
    c ∈ db_countries db' ∧
    row_cols c !! "code" = Some (VStr (MovieCreateSchema.country data)) ∧
    resolved db' GenreModel (MovieCreateSchema.genres data) gs ∧
    resolved db' ActorModel (MovieCreateSchema.actors data) acs ∧
    resolved db' LanguageModel (MovieCreateSchema.languages data) ls.
Proof.
  destruct data as [name date score overview status budget revenue country genres actors languages].
  set (data := MovieCreateSchema.mk _ _ _ _ _ _ _ _ _ _ _).
  simpl. intros Hwf Hd Hf.
  destruct (get_or_create_wf CountryModel (VStr country) db Hwf)
    as (c & db1 & Hc & Hwf1 & Hext1 & Hmov1 & Hcin & Hck).
  destruct (resolve_names_wf GenreModel genres db1 Hwf1)
    as (gs & db2 & Hgs & Hwf2 & Hext2 & Hmov2 & Hg).
  destruct (resolve_names_wf ActorModel actors db2 Hwf2)
    as (acs & db3 & Has & Hwf3 & Hext3 & Hmov3 & Ha).
  destruct (resolve_names_wf LanguageModel languages db3 Hwf3)
    as (ls & db4 & Hls & Hwf4 & Hext4 & Hmov4 & Hl).
  simpl in *.
  assert (extends db2 db4) as Hext24 by (by eapply extends_trans).
  assert (extends db1 db4) as Hext14 by (by eapply extends_trans).
  apply (resolved_extends _ _ _ _ _ Hext24) in Hg.
  apply (resolved_extends _ _ _ _ _ Hext4) in Ha.
  apply (Hext14 CountryModel) in Hcin. simpl in Hcin.
  assert (db_movies db4 = db_movies db) as Hmov by congruence.
  set (mid := next_id (MovieModel.id <$> db_movies db)).
  set (movie := MovieModel.mk mid (created_cols data) (row_id c) (row_id <$> gs) (row_id <$> acs) (row_id <$> ls)).
  exists c, gs, acs, ls, (db_set_movies db4 (db_movies db ++ [movie])).
  split_and!; try done.
  - unfold create_movie. rewrite decide_False by lia.
    rewrite bind_unfold. simpl. rewrite bind_unfold, Hf. simpl.
    rewrite bind_unfold, Hc, bind_unfold, Hgs, bind_unfold, Has, bind_unfold, Hls.
    rewrite bind_unfold. simpl. rewrite bind_unfold. simpl.
    unfold select_detail. rewrite Hmov. simpl.
    pose proof (select_new_movie (db_movies db) movie eq_refl) as Hsel.
    unfold movie at 1, mid in Hsel. simpl in Hsel. unfold movie, mid, data, created_cols in *. simpl in *. rewrite Hsel. simpl.
    unfold selectinload. simpl.
    pose proof (Hwf4 CountryModel) as [Hndc _]. simpl in *.
    by rewrite by_id_elem by done.
  - intros model r Hr. rewrite db_table_set_movies. apply Hext14. by apply Hext1.
Qed.

Lemma table_wf_key_inj key (t : list Row) r1 r2 :
  table_wf key t → r1 ∈ t → r2 ∈ t →
  row_cols r1 !! key = row_cols r2 !! key → r1 = r2.
Proof.
  intros [_ Hk] [i Hi]%list_elem_of_lookup [j Hj]%list_elem_of_lookup Heq.
  assert (i = j) as ->; [|congruence].
  eapply NoDup_lookup; [exact Hk| |]; rewrite list_lookup_fmap.
  - by rewrite Hi.
  - rewrite Hj. simpl. by rewrite Heq.
Qed.

Lemma table_wf_id_inj key (t : list Row) r1 r2 :
  table_wf key t → r1 ∈ t → r2 ∈ t → row_id r1 = row_id r2 → r1 = r2.
Proof.
  intros [Hi _] [i H1]%list_elem_of_lookup [j H2]%list_elem_of_lookup Heq.
  assert (i = j) as ->; [|congruence].
  eapply NoDup_lookup; [exact Hi| |]; rewrite list_lookup_fmap.
  - by rewrite H1.
  - rewrite H2. simpl. by rewrite Heq.
Qed.

(** On a keyed table, the rows that a load returns for the links to some
    rows of the table are exactly those rows. *)
Lemma linked_elem key (t rows : list Row) r :
  table_wf key t → Forall (λ r, r ∈ t) rows →
  r ∈ linked (row_id <$> rows) t ↔ r ∈ rows.
Proof.
  intros Hwf Hrows. rewrite Forall_forall in Hrows.
  unfold linked. rewrite list_elem_of_filter. split.
  - intros [(r' & Hid & Hr')%list_elem_of_fmap Hr].
    by rewrite (table_wf_id_inj key t r r' Hwf Hr (Hrows _ Hr') Hid).
  - intros Hr. split; [|by apply Hrows]. apply list_elem_of_fmap. by exists r.
Qed.

Lemma resolved_names_of db model names rows r :
  natural_key model = "name" → resolved db model names rows → r ∈ rows →
  ∃ g, g ∈ names ∧ row_cols r !! "name" = Some (VStr g) ∧ row_name r = Some g.
Proof.
  intros Hkey Hres Hr. unfold resolved in Hres. rewrite Hkey in Hres.
  induction Hres as [|g r' names rows [_ Hk] _ IH]; [by apply elem_of_nil in Hr|].
  apply elem_of_cons in Hr as [->|Hr].
  - exists g. split_and!; [left|done|]. unfold row_name. by rewrite Hk.
  - destruct (IH Hr) as (g' & Hg' & ?). exists g'. split; [by right|done].
Qed.

Lemma resolved_rows_of db model names rows g :
  natural_key model = "name" → resolved db model names rows → g ∈ names →
  ∃ r, r ∈ rows ∧ row_name r = Some g.
Proof.
  intros Hkey Hres Hg. unfold resolved in Hres. rewrite Hkey in Hres.
  induction Hres as [|g' r names rows [_ Hk] _ IH]; [by apply elem_of_nil in Hg|].
  apply elem_of_cons in Hg as [->|Hg].
  - exists r. split; [left|]. unfold row_name. by rewrite Hk.
  - destruct (IH Hg) as (r' & Hr' & ?). exists r'. split; [by right|done].
Qed.

(** The names a load returns for the links to the resolved rows: the
    input names, each once. *)
Lemma linked_names db model names rows :
  natural_key model = "name" → refs_wf db → resolved db model names rows →
  NoDup (linked (row_id <$> rows) (db_table db model)) ∧
  row_name <$> linked (row_id <$> rows) (db_table db model)
    ≡ₚ Some <$> remove_dups names.
Proof.
  intros Hkey Hwf Hres.
  pose proof (Hwf model) as Ht. rewrite Hkey in Ht.
  pose proof (resolved_elem _ _ _ _ Hres) as Hin.
  assert (NoDup (linked (row_id <$> rows) (db_table db model))) as Hnd.
  { apply (NoDup_fmap_1 row_id). apply NoDup_fmap_filter, Ht. }
  split; [exact Hnd|].
  apply NoDup_Permutation.
  - apply NoDup_fmap_2_strong; [|exact Hnd].
    intros r1 r2 H1 H2 Heq.
    pose proof H1 as H1'. pose proof H2 as H2'.
    apply (linked_elem "name" _ _ _ Ht Hin) in H1, H2.
    destruct (resolved_names_of _ _ _ _ _ Hkey Hres H1) as (g1 & _ & Hc1 & Hn1).
    destruct (resolved_names_of _ _ _ _ _ Hkey Hres H2) as (g2 & _ & Hc2 & Hn2).
    rewrite Forall_forall in Hin.
    apply (table_wf_key_inj "name" (db_table db model)); auto. congruence.
  - apply (NoDup_fmap_2 Some), NoDup_remove_dups.
  - intros x. rewrite !list_elem_of_fmap. split.
    + intros (r & -> & Hr). apply (linked_elem "name" _ _ _ Ht Hin) in Hr.
      destruct (resolved_names_of _ _ _ _ _ Hkey Hres Hr) as (g & Hg & _ & Hn).
      exists g. split; [done|]. by rewrite elem_of_remove_dups.
    + intros (g & -> & Hg). rewrite elem_of_remove_dups in Hg.
      destruct (resolved_rows_of _ _ _ _ _ Hkey Hres Hg) as (r & Hr & Hn).
      exists r. split; [done|]. by apply (linked_elem "name" _ _ _ Ht Hin).
Qed.

Lemma remove_dups_Permutation (l k : list string) :
  l ≡ₚ k → remove_dups l ≡ₚ remove_dups k.
Proof.
  intros Hp. apply NoDup_Permutation; try apply NoDup_remove_dups.
  intros x. by rewrite !elem_of_remove_dups, Hp.
Qed.

(** C1. A create that passes the date and uniqueness checks on a store
    with keyed reference tables returns a movie whose genre, actor and
    language relations are sets of rows: no row is linked twice, and the
    names of the linked rows are the input names with duplicates
    collapsed, each exactly once. A second request that differs only in
    the order of its genre, actor and language lists returns the same
    names in each relation. *)
Theorem create_movie_links today data data' db :
  refs_wf db →
  MovieCreateSchema.date data ≤ today + 365 →
  (∀ m, m ∈ db_movies db →
        ¬ same_name_date (MovieCreateSchema.name data) (MovieCreateSchema.date data) m) →
  MovieCreateSchema.name data' = MovieCreateSchema.name data →
  MovieCreateSchema.date data' = MovieCreateSchema.date data →
  MovieCreateSchema.genres data' ≡ₚ MovieCreateSchema.genres data →
  MovieCreateSchema.actors data' ≡ₚ MovieCreateSchema.actors data →
  MovieCreateSchema.languages data' ≡ₚ MovieCreateSchema.languages data →
  ∃ movie db1 movie' db1',
    create_movie today data db = (inr movie, db1) ∧
    create_movie today data' db = (inr movie', db1') ∧
    (NoDup (detail_genres movie) ∧ NoDup (detail_actors movie) ∧
     NoDup (detail_languages movie)) ∧
    (row_name <$> detail_genres movie
       ≡ₚ Some <$> remove_dups (MovieCreateSchema.genres data) ∧
     row_name <$> detail_actors movie
       ≡ₚ Some <$> remove_dups (MovieCreateSchema.actors data) ∧
     row_name <$> detail_languages movie
       ≡ₚ Some <$> remove_dups (MovieCreateSchema.languages data)) ∧
    (row_name <$> detail_genres movie' ≡ₚ row_name <$> detail_genres movie ∧
     row_name <$> detail_actors movie' ≡ₚ row_name <$> detail_actors movie ∧
     row_name <$> detail_languages movie' ≡ₚ row_name <$> detail_languages movie).
Proof.
  intros Hwf Hd Hnew Hn' Hd' Hpg Hpa Hpl.
  destruct (create_movie_succeeds today data db Hwf Hd)
    as (c & gs & acs & ls & db1 & Hrun & Hwf1 & _ & _ & _ & _ & Hg & Ha & Hl).
  { by apply filter_none. }
  destruct (create_movie_succeeds today data' db Hwf)
    as (c' & gs' & acs' & ls' & db1' & Hrun' & Hwf1' & _ & _ & _ & _ & Hg' & Ha' & Hl').
  { lia. }
  { rewrite Hn', Hd'. by apply filter_none. }
  destruct (linked_names db1 GenreModel _ _ eq_refl Hwf1 Hg) as [Hndg Hng].
  destruct (linked_names db1 ActorModel _ _ eq_refl Hwf1 Ha) as [Hnda Hna].
  destruct (linked_names db1 LanguageModel _ _ eq_refl Hwf1 Hl) as [Hndl Hnl].
  destruct (linked_names db1' GenreModel _ _ eq_refl Hwf1' Hg') as [_ Hng'].
  destruct (linked_names db1' ActorModel _ _ eq_refl Hwf1' Ha') as [_ Hna'].
  destruct (linked_names db1' LanguageModel _ _ eq_refl Hwf1' Hl') as [_ Hnl'].
  eexists _, db1, _, db1'. split; [exact Hrun|]. split; [exact Hrun'|]. simpl in *.
  split; [done|]. split; [done|]. split_and!.
  - by rewrite Hng', Hng, (remove_dups_Permutation _ _ Hpg).
  - by rewrite Hna', Hna, (remove_dups_Permutation _ _ Hpa).
  - by rewrite Hnl', Hnl, (remove_dups_Permutation _ _ Hpl).
Qed.

Lemma empty_db_wf : refs_wf empty_db.
Proof. intros []; split; simpl; constructor. Qed.

Lemma create_movie_links_witness :
  ∃ movie db1 movie' db1',
    create_movie Sample.today Sample.dune_repeated empty_db = (inr movie, db1) ∧
    create_movie Sample.today Sample.dune_reordered empty_db = (inr movie', db1') ∧
    row_name <$> detail_genres movie ≡ₚ [Some "Drama"; Some "Sci-Fi"] ∧
    row_name <$> detail_genres movie' ≡ₚ row_name <$> detail_genres movie.
Proof.
  destruct (create_movie_links Sample.today Sample.dune_repeated Sample.dune_reordered
              empty_db)
    as (movie & db1 & movie' & db1' & Hrun & Hrun' & _ & (Hg & _) & (Hg' & _)).
  - exact empty_db_wf.
  - vm_compute; discriminate.
  - intros m Hm. by apply elem_of_nil in Hm.
  - reflexivity.
  - reflexivity.
  - apply perm_swap.
  - reflexivity.
  - reflexivity.
  - exists movie, db1, movie', db1'.
    split; [exact Hrun|]. split; [exact Hrun'|]. split; [exact Hg|exact Hg'].
Defined.

(** ** The checks of create_movie *)

Lemma NoDup_fmap_filter_at_most_one {A B} `{EqDecision B} (f : A → B) (v : B) (l : list A) :
  NoDup (f <$> l) → (length (filter (λ x, f x = v) l) ≤ 1)%nat.
Proof.
  induction l as [|x l IH]; [simpl; lia|].
  rewrite fmap_cons. intros [Hx Hnd]%NoDup_cons.
  destruct (decide (f x = v)) as [Hv|Hv].
  - rewrite filter_cons_True by done. rewrite filter_none; [simpl; lia|].
    intros y Hy Hfy. apply Hx. rewrite Hv, <- Hfy. apply list_elem_of_fmap. by exists y.
  - rewrite filter_cons_False by done. by apply IH.
Qed.

Lemma same_name_date_filter name date (ms : list MovieModel.t) :
  filter (same_name_date name date) ms =
  filter (λ m, (MovieModel.cols m !! "name", MovieModel.cols m !! "date")
               = (Some (VStr name), Some (VDate date))) ms.
Proof.
  apply list_filter_iff. intros m. unfold same_name_date. split.
  - by intros [-> ->].
  - by intros [= -> ->].
Qed.

Lemma movies_unique_filter db name date m :
  movies_unique db → m ∈ db_movies db → same_name_date name date m →
  filter (same_name_date name date) (db_movies db) = [m].
Proof.
  intros Hu Hm Hs.
  assert (m ∈ filter (same_name_date name date) (db_movies db)) as Hin
    by (by apply list_elem_of_filter).
  pose proof (NoDup_fmap_filter_at_most_one _ (Some (VStr name), Some (VDate date)) _ Hu) as Hle.
  rewrite <- same_name_date_filter in Hle.
  destruct (at_most_one _ Hle) as [Hf|[r Hf]]; rewrite Hf in Hin.
  - by apply elem_of_nil in Hin.
  - apply list_elem_of_singleton in Hin. by subst.
Qed.

Lemma create_movie_too_far today data db :
  today + 365 < MovieCreateSchema.date data →
  create_movie today data db = (inl (HTTPException 400 "Invalid input data."), db).
Proof.
  destruct data; simpl. intros Hd. unfold create_movie. by rewrite decide_True.
Qed.

Lemma create_movie_existing today data db m :
  MovieCreateSchema.date data ≤ today + 365 →
  filter (same_name_date (MovieCreateSchema.name data) (MovieCreateSchema.date data))
    (db_movies db) = [m] →
  create_movie today data db =
    (inl (HTTPException 409
            (conflict_detail (MovieCreateSchema.name data) (MovieCreateSchema.date data))), db).
Proof.
  destruct data; simpl. intros Hd Hf. unfold create_movie.
  rewrite decide_False by lia. rewrite bind_unfold. simpl. by rewrite bind_unfold, Hf.
Qed.

(** C3. Whenever the create request fails with a validation error, with
    the 400 of the date check or with the 409 of the uniqueness check,
    the session holds exactly the store the request started from: nothing
    has been resolved or created by then. *)
Theorem create_failure_leaves_store today body db e db' :
  POST_movies today body db = (inl e, db') →
  (∃ errs, e = RequestValidationError errs) ∨
  (∃ detail, e = HTTPException 400 detail) ∨
  (∃ detail, e = HTTPException 409 detail) →
  db' = db.
Proof.
  unfold POST_movies. destruct (MovieCreateSchema.errors body) as [|err errs].
  - intros Hrun%create_movie_raises Hkind.
    destruct Hrun as [(_ & _ & ->)|[(_ & _ & _ & ->)|(_ & [->| ->])]]; try done;
      destruct Hkind as [[? [=]]|[[? [=]]|[? [=]]]].
  - by intros [= <- <-].
Qed.

Lemma create_failure_leaves_store_witness :
  POST_movies Sample.today Sample.dune Sample.stored
    = (inl (HTTPException 409
         "A movie with the name 'Dune' and release date '2024-03-01' already exists."),
       Sample.stored) ∧
  length (db_genres Sample.stored) = 2%nat.
Proof.
  assert (POST_movies Sample.today Sample.dune Sample.stored
    = (inl (HTTPException 409
         "A movie with the name 'Dune' and release date '2024-03-01' already exists."),
       (POST_movies Sample.today Sample.dune Sample.stored).2)) as Hrun.
  { vm_compute. reflexivity. }
  pose proof (create_failure_leaves_store Sample.today Sample.dune Sample.stored _ _ Hrun
                (or_intror (or_intror (ex_intro _ _ eq_refl)))) as Hsame.
  split; [|vm_compute; reflexivity].
  exact (eq_trans Hrun (f_equal (λ d, (inl _, d)) Hsame)).
Defined.

(** C8. A release date more than 365 days after today makes the handler
    raise the 400 [HTTPException] "Invalid input data." at once, whatever
    the other fields and the store are; a date at most 365 days after
    today never makes it raise a 400. *)
Theorem create_movie_date_check today data db :
  (today + 365 < MovieCreateSchema.date data →
     create_movie today data db = (inl (HTTPException 400 "Invalid input data."), db)) ∧
  (MovieCreateSchema.date data ≤ today + 365 →
     ∀ detail db', create_movie today data db ≠ (inl (HTTPException 400 detail), db')).
Proof.
  split; [apply create_movie_too_far|].
  intros Hd detail db' Hrun%create_movie_raises.
  destruct Hrun as [(? & _)|[(_ & _ & [=] & _)|(_ & [[=]|[=]])]]. lia.
Qed.

Lemma create_movie_date_check_witness :
  create_movie Sample.today Sample.dune_postponed empty_db
    = (inl (HTTPException 400 "Invalid input data."), empty_db) ∧
  (MovieCreateSchema.date Sample.dune = Sample.today + 46 ∧
   ∀ detail db',
     create_movie Sample.today Sample.dune empty_db ≠ (inl (HTTPException 400 detail), db')).
Proof.
  split.
  - apply (create_movie_date_check Sample.today Sample.dune_postponed empty_db).
    vm_compute. reflexivity.
  - split; [reflexivity|].
    apply (create_movie_date_check Sample.today Sample.dune empty_db).
    vm_compute. discriminate.
Defined.

(** C4. The uniqueness check is the step after the date check. For a
    release date that has passed it, at most 365 days after today, and a
    store in which (name, date) identifies a movie, the handler raises the
    409 [HTTPException] whose detail quotes the name and the ISO date,
    leaving the store as it is, exactly when a stored movie has that name
    and date, whatever the other fields are; no other 409 is ever
    raised. *)
Theorem create_movie_conflict today data db :
  MovieCreateSchema.date data ≤ today + 365 →
  movies_unique db →
  (create_movie today data db =
     (inl (HTTPException 409
        ("A movie with the name '" +:+ MovieCreateSchema.name data +:+
         "' and release date '" +:+ Date.isoformat (MovieCreateSchema.date data) +:+
         "' already exists.")), db)
   ↔ ∃ m, m ∈ db_movies db ∧
          same_name_date (MovieCreateSchema.name data) (MovieCreateSchema.date data) m) ∧
  (∀ detail db',
     create_movie today data db = (inl (HTTPException 409 detail), db') →
     ∃ m, m ∈ db_movies db ∧
          same_name_date (MovieCreateSchema.name data) (MovieCreateSchema.date data) m).
Proof.
  intros Hd Hu.
  assert (∀ detail db',
     create_movie today data db = (inl (HTTPException 409 detail), db') →
     ∃ m, m ∈ db_movies db ∧
          same_name_date (MovieCreateSchema.name data) (MovieCreateSchema.date data) m) as Hnew.
  { intros detail db' Hrun%create_movie_raises.
    destruct Hrun as [(_ & [=] & _)|[(_ & [m Hf] & _)|(_ & [[=]|[=]])]].
    exists m.
    assert (m ∈ filter (same_name_date (MovieCreateSchema.name data)
                          (MovieCreateSchema.date data)) (db_movies db)) as Hin
      by (rewrite Hf; by apply list_elem_of_singleton).
    apply list_elem_of_filter in Hin as [? ?]. done. }
  split; [split|exact Hnew].
  - apply Hnew.
  - intros (m & Hm & Hs). eapply create_movie_existing; [done|].
    by apply movies_unique_filter.
Qed.

Lemma stored_movies_unique : movies_unique Sample.stored.
Proof. unfold movies_unique. vm_compute. apply NoDup_singleton. Qed.

Lemma stored_dune :
  ∃ m, m ∈ db_movies Sample.stored ∧
       same_name_date (MovieCreateSchema.name Sample.dune)
         (MovieCreateSchema.date Sample.dune) m.
Proof.
  assert (∃ m, db_movies Sample.stored !! 0%nat = Some m ∧
               same_name_date (MovieCreateSchema.name Sample.dune)
                 (MovieCreateSchema.date Sample.dune) m) as (m & Hm & Hs).
  { eexists. split; [vm_compute; reflexivity|]. split; vm_compute; reflexivity. }
  exists m. split; [|done]. by eapply list_elem_of_lookup_2.
Qed.

Lemma create_movie_conflict_witness :
  MovieCreateSchema.date Sample.dune ≤ Sample.today + 365 ∧
  movies_unique Sample.stored ∧
  create_movie Sample.today Sample.dune Sample.stored =
    (inl (HTTPException 409
       "A movie with the name 'Dune' and release date '2024-03-01' already exists."),
     Sample.stored).
Proof.
  assert (MovieCreateSchema.date Sample.dune ≤ Sample.today + 365) as Hd
    by (vm_compute; discriminate).
  split; [exact Hd|]. split; [exact stored_movies_unique|].
  exact (proj2 (proj1 (create_movie_conflict Sample.today Sample.dune Sample.stored
                         Hd stored_movies_unique)) stored_dune).
Defined.

(** ** Schema validation *)

Lemma field_errors_nil {A} field (r : string + A) :
  MovieCreateSchema.field_errors field r = [] ↔ ∃ a, r = inr a.
Proof.
  destruct r as [msg|a]; simpl; split; try done.
  - by intros [? [=]].
  - by exists a.
Qed.

Lemma validate_score_ok (v : Q) :
  (∃ a, MovieCreateSchema.validate_score v = inr a) ↔ (0 <= v)%Q ∧ (v <= 100)%Q.
Proof.
  unfold MovieCreateSchema.validate_score.
  rewrite <- !Qle_bool_iff.
  destruct (Qle_bool 0 v), (Qle_bool v 100); simpl; split;
    try (by intros [? [=]]); try (by intros [[=] [=]]); eauto.
Qed.

Lemma validate_money_ok (v : Q) :
  (∃ a, MovieCreateSchema.validate_money v = inr a) ↔ (0 <= v)%Q.
Proof.
  unfold MovieCreateSchema.validate_money.
  destruct (Qlt_le_dec v 0) as [Hlt|Hle]; split; eauto.
  - by intros [? [=]].
  - intros Hle. by apply Qlt_not_le in Hlt.
Qed.

Lemma max_length_ok n (v : string) :
  (∃ a, MovieCreateSchema.max_length n v = inr a) ↔ (String.length v ≤ n)%nat.
Proof.
  unfold MovieCreateSchema.max_length. case_decide; split; eauto; try lia.
  by intros [? [=]].
Qed.

Lemma create_errors_nil data :
  MovieCreateSchema.errors data = [] ↔
    (String.length (MovieCreateSchema.name data) ≤ 255)%nat ∧
    ((0 <= MovieCreateSchema.score data)%Q ∧ (MovieCreateSchema.score data <= 100)%Q) ∧
    (0 <= MovieCreateSchema.budget data)%Q ∧
    (0 <= MovieCreateSchema.revenue data)%Q.
Proof.
  unfold MovieCreateSchema.errors.
  rewrite !app_nil, !field_errors_nil.
  by rewrite max_length_ok, validate_score_ok, !validate_money_ok.
Qed.

Lemma create_movie_no_validation_error today data db errs db' :
  create_movie today data db ≠ (inl (RequestValidationError errs), db').
Proof.
  intros Hrun%create_movie_raises.
  destruct Hrun as [(_ & [=] & _)|[(_ & _ & [=] & _)|(_ & [[=]|[=]])]].
Qed.

(** C9, as the code has it. The create request is refused with a request
    validation error exactly when the name is longer than 255 characters,
    the score lies outside [0, 100], or the budget or the revenue is
    negative. The error lists the offending fields and is raised with the
    store untouched: the handler has not run. A score of 0 or 100 passes
    the score validator, 101 and -1 do not. *)
Theorem create_validation today body db :
  ((∃ errs db', POST_movies today body db = (inl (RequestValidationError errs), db')) ↔
     (255 < String.length (MovieCreateSchema.name body))%nat ∨
     ((MovieCreateSchema.score body < 0)%Q ∨ (100 < MovieCreateSchema.score body)%Q) ∨
     (MovieCreateSchema.budget body < 0)%Q ∨
     (MovieCreateSchema.revenue body < 0)%Q) ∧
  (∀ errs db',
     POST_movies today body db = (inl (RequestValidationError errs), db') →
     errs = MovieCreateSchema.errors body ∧ errs ≠ [] ∧ db' = db) ∧
  MovieCreateSchema.validate_score 0 = inr 0%Q ∧
  MovieCreateSchema.validate_score 100 = inr 100%Q ∧
  MovieCreateSchema.validate_score 101 = inl "Score must be between 0 and 100" ∧
  MovieCreateSchema.validate_score (-1) = inl "Score must be between 0 and 100".
Proof.
  assert (∀ errs db',
     POST_movies today body db = (inl (RequestValidationError errs), db') →
     errs = MovieCreateSchema.errors body ∧ errs ≠ [] ∧ db' = db) as Hshape.
  { intros errs db'. unfold POST_movies.
    destruct (MovieCreateSchema.errors body) as [|err errs0].
    - intros Hrun. by apply create_movie_no_validation_error in Hrun.
    - by intros [= <- <-]. }
  split_and!; try done. split.
  - intros (errs & db' & Hrun). apply Hshape in Hrun as (-> & Hne & _).
    rewrite create_errors_nil in Hne.
    destruct (decide (String.length (MovieCreateSchema.name body) ≤ 255)%nat); [|left; lia].
    right.
    destruct (Qlt_le_dec (MovieCreateSchema.score body) 0); [by left; left|].
    destruct (Qlt_le_dec 100 (MovieCreateSchema.score body)); [by left; right|].
    right.
    destruct (Qlt_le_dec (MovieCreateSchema.budget body) 0); [by left|].
    destruct (Qlt_le_dec (MovieCreateSchema.revenue body) 0); [by right|].
    by destruct Hne.
  - intros Hbad. unfold POST_movies.
    destruct (MovieCreateSchema.errors body) as [|err errs0] eqn:Herrs; [|by eexists _, _].
    exfalso. apply create_errors_nil in Herrs as (Hn & [Hs0 Hs1] & Hb & Hr).
    destruct Hbad as [?|[[Hs|Hs]|[Hlt|Hlt]]]; [lia|..]; by apply Qlt_not_le in Hlt || by apply Qlt_not_le in Hs.
Qed.

Lemma create_validation_witness :
  ∃ errs,
    POST_movies Sample.today Sample.dune_long_name empty_db
      = (inl (RequestValidationError errs), empty_db) ∧
    errs = MovieCreateSchema.errors Sample.dune_long_name ∧ errs ≠ [].
Proof.
  exists [("name", "String should have at most 255 characters")].
  assert (POST_movies Sample.today Sample.dune_long_name empty_db
      = (inl (RequestValidationError [("name", "String should have at most 255 characters")]),
         empty_db)) as Hrun by (vm_compute; reflexivity).
  split; [exact Hrun|].
  destruct (proj1 (proj2 (create_validation Sample.today Sample.dune_long_name empty_db))
              _ _ Hrun) as (Herrs & Hne & _).
  split; [exact Herrs|exact Hne].
Defined.

(** C9, as stated, fails: a body whose score, budget and revenue are all
    in range is still refused with a field-level validation error when its
    name exceeds 255 characters. *)
Lemma create_validation_long_name :
  (0 <= MovieCreateSchema.score Sample.dune_long_name)%Q ∧
  (MovieCreateSchema.score Sample.dune_long_name <= 100)%Q ∧
  (0 <= MovieCreateSchema.budget Sample.dune_long_name)%Q ∧
  (0 <= MovieCreateSchema.revenue Sample.dune_long_name)%Q ∧
  POST_movies Sample.today Sample.dune_long_name empty_db
    = (inl (RequestValidationError [("name", "String should have at most 255 characters")]),
       empty_db).
Proof.
  split_and!; try (vm_compute; discriminate). vm_compute. reflexivity.
Qed.

(** ** update_movie *)

Lemma foldl_setattr_frame (l : list (string * value)) m :
  MovieModel.id (foldl assign m l) = MovieModel.id m ∧
  MovieModel.country (foldl assign m l) = MovieModel.country m ∧
  MovieModel.genres (foldl assign m l) = MovieModel.genres m ∧
  MovieModel.actors (foldl assign m l) = MovieModel.actors m ∧
  MovieModel.languages (foldl assign m l) = MovieModel.languages m.
Proof.
  revert m. induction l as [|kv l IH]; intros m; [done|].
  simpl. destruct (IH (assign m kv)) as (-> & -> & -> & -> & ->). done.
Qed.

Lemma foldl_dump_same {A} m key (inj : A → value) f :
  MovieModel.cols (foldl assign m (MovieUpdateSchema.dump_field key inj f)) !! key
    = assigned inj f (MovieModel.cols m !! key).
Proof. destruct f as [[a|]|]; simpl; by rewrite ?lookup_insert_eq. Qed.

Lemma foldl_dump_other {A} m key key' (inj : A → value) f :
  key' ≠ key →
  MovieModel.cols (foldl assign m (MovieUpdateSchema.dump_field key inj f)) !! key'
    = MovieModel.cols m !! key'.
Proof. intros Hne. destruct f as [[a|]|]; simpl; by rewrite ?lookup_insert_ne. Qed.

Lemma replace_by_id_filter (l : list MovieModel.t) i m' :
  MovieModel.id m' = i →
  filter (λ m, MovieModel.id m = i)
    ((λ m, if decide (MovieModel.id m = i) then m' else m) <$> l)
  = (λ _, m') <$> filter (λ m, MovieModel.id m = i) l.
Proof.
  intros Hid. induction l as [|m l IH]; [done|].
  rewrite fmap_cons. destruct (decide (MovieModel.id m = i)) as [Hm|Hm].
  - rewrite !filter_cons_True by done. by rewrite fmap_cons, IH.
  - rewrite !filter_cons_False by done. done.
Qed.

Ltac dump_lookup :=
  unfold MovieUpdateSchema.model_dump_exclude_unset;
  rewrite !foldl_app;
  rewrite ?foldl_dump_other by done;
  rewrite foldl_dump_same;
  rewrite ?foldl_dump_other by done;
  reflexivity.

(** The handler on the id of a stored movie. *)
Lemma update_movie_run movie_id data db movie :
  filter (λ m, MovieModel.id m = movie_id) (db_movies db) = [movie] →
  let movie' := foldl assign movie (MovieUpdateSchema.model_dump_exclude_unset data) in
  update_movie movie_id data db =
    (inr "Movie updated successfully.",
     db_set_movies db
       ((λ m, if decide (MovieModel.id m = movie_id) then movie' else m) <$> db_movies db)) ∧
  MovieModel.id movie' = movie_id ∧
  filter (λ m, MovieModel.id m = movie_id)
    ((λ m, if decide (MovieModel.id m = movie_id) then movie' else m) <$> db_movies db)
    = [movie'].
Proof.
  intros Hf movie'.
  assert (MovieModel.id movie = movie_id) as Hid.
  { assert (movie ∈ filter (λ m, MovieModel.id m = movie_id) (db_movies db)) as Hin
      by (rewrite Hf; by apply list_elem_of_singleton).
    by apply list_elem_of_filter in Hin as [? _]. }
  assert (MovieModel.id movie' = movie_id) as Hid'.
  { unfold movie'. by rewrite (proj1 (foldl_setattr_frame _ movie)). }
  split_and!; [|done|].
  - unfold update_movie. rewrite bind_unfold. simpl. rewrite bind_unfold, Hf. simpl.
    rewrite bind_unfold. simpl. fold movie'. by rewrite Hid'.
  - rewrite replace_by_id_filter by done. by rewrite Hf.
Qed.

(** C7. Updating a stored movie succeeds with the success message only.
    In the store it replaces that movie's row, and nothing else, by a row
    with the same id, country and genre, actor and language links. Each of
    the seven schema fields decides its own column: left out, the column
    keeps its value; set to null, the column becomes [None]; set to a value,
    the column holds it. Every other column is kept. A detail read that
    follows returns the updated row. *)
Theorem update_movie_frame movie_id data db movie :
  filter (λ m, MovieModel.id m = movie_id) (db_movies db) = [movie] →
  ∃ movie' db',
    update_movie movie_id data db = (inr "Movie updated successfully.", db') ∧
    db_movies db' =
      ((λ m, if decide (MovieModel.id m = movie_id) then movie' else m) <$> db_movies db) ∧
    (∀ model, db_table db' model = db_table db model) ∧
    (MovieModel.id movie' = movie_id ∧
     MovieModel.country movie' = MovieModel.country movie ∧
     MovieModel.genres movie' = MovieModel.genres movie ∧
     MovieModel.actors movie' = MovieModel.actors movie ∧
     MovieModel.languages movie' = MovieModel.languages movie) ∧
    (MovieModel.cols movie' !! "name"
       = assigned VStr (MovieUpdateSchema.name data) (MovieModel.cols movie !! "name") ∧
     MovieModel.cols movie' !! "date"
       = assigned VDate (MovieUpdateSchema.date data) (MovieModel.cols movie !! "date") ∧
     MovieModel.cols movie' !! "score"
       = assigned VFloat (MovieUpdateSchema.score data) (MovieModel.cols movie !! "score") ∧
     MovieModel.cols movie' !! "overview"
       = assigned VStr (MovieUpdateSchema.overview data) (MovieModel.cols movie !! "overview") ∧
     MovieModel.cols movie' !! "status"
       = assigned VStr (MovieUpdateSchema.status data) (MovieModel.cols movie !! "status") ∧
     MovieModel.cols movie' !! "budget"
       = assigned VFloat (MovieUpdateSchema.budget data) (MovieModel.cols movie !! "budget") ∧
     MovieModel.cols movie' !! "revenue"
       = assigned VFloat (MovieUpdateSchema.revenue data)
           (MovieModel.cols movie !! "revenue")) ∧
    (∀ key, key ∉ updatable → MovieModel.cols movie' !! key = MovieModel.cols movie !! key) ∧
    get_movie movie_id db' = (inr (selectinload db' movie'), db').
Proof.
  intros Hf.
  destruct (update_movie_run movie_id data db movie Hf) as (Hrun & Hid & Hf').
  eexists _, _. split; [exact Hrun|].
  destruct (foldl_setattr_frame (MovieUpdateSchema.model_dump_exclude_unset data) movie)
    as (_ & Hc & Hg & Ha & Hl).
  split_and!; try done.
  - dump_lookup.
  - dump_lookup.
  - dump_lookup.
  - dump_lookup.
  - dump_lookup.
  - dump_lookup.
  - dump_lookup.
  - intros key Hkey. unfold updatable in Hkey.
    rewrite !not_elem_of_cons in Hkey. destruct_and!.
    unfold MovieUpdateSchema.model_dump_exclude_unset.
    rewrite !foldl_app. by rewrite !foldl_dump_other by done.
  - unfold get_movie. rewrite bind_unfold. simpl. rewrite bind_unfold.
    unfold select_detail. simpl. by rewrite Hf'.
Qed.

Lemma stored_movie_1 :
  ∃ movie, filter (λ m, MovieModel.id m = 1) (db_movies Sample.stored) = [movie] ∧
           MovieModel.cols movie !! "name" = Some (VStr "Dune") ∧
           MovieModel.cols movie !! "overview" = Some (VStr "").
Proof. eexists. split_and!; vm_compute; reflexivity. Qed.

Lemma update_movie_frame_witness :
  ∃ movie movie' db',
    filter (λ m, MovieModel.id m = 1) (db_movies Sample.stored) = [movie] ∧
    update_movie 1 Sample.rescore Sample.stored = (inr "Movie updated successfully.", db') ∧
    filter (λ m, MovieModel.id m = 1) (db_movies db') = [movie'] ∧
    MovieModel.cols movie' !! "score" = Some (VFloat (50 # 1)) ∧
    MovieModel.cols movie' !! "name" = MovieModel.cols movie !! "name" ∧
    MovieModel.cols movie' !! "overview" = MovieModel.cols movie !! "overview".
Proof.
  destruct stored_movie_1 as (movie & Hf & _).
  destruct (update_movie_frame 1 Sample.rescore Sample.stored movie Hf)
    as (movie' & db' & Hrun & Hms & _ & (Hid & _) & (Hn & _ & Hs & Ho & _) & _ & _).
  exists movie, movie', db'. split_and!; [exact Hf|exact Hrun| |exact Hs|exact Hn|exact Ho].
  rewrite Hms, replace_by_id_filter by exact Hid. rewrite Hf. reflexivity.
Defined.

(** C10. An update request whose body sets the date to a value is
    refused for that field with "Input should be None", whatever the date
    and whether or not the movie exists: the handler never runs, the store
    is left as it is and no date is persisted. The date rule of create is
    not what refuses it: a date within 365 days is refused as well. *)
Theorem PATCH_movie_refuses_date movie_id body db d :
  MovieUpdateSchema.date body = Some (Some d) →
  ∃ errs,
    PATCH_movie movie_id body db = (inl (RequestValidationError errs), db) ∧
    ("date", "Input should be None") ∈ errs.
Proof.
  intros Hdate. unfold PATCH_movie.
  assert (("date", "Input should be None") ∈ MovieUpdateSchema.errors body) as Hin.
  { unfold MovieUpdateSchema.errors. rewrite Hdate. simpl.
    apply elem_of_app. right. left. }
  destruct (MovieUpdateSchema.errors body) as [|err errs] eqn:Herrs.
  - by apply elem_of_nil in Hin.
  - by eexists.
Qed.

Lemma PATCH_movie_refuses_date_witness :
  PATCH_movie 1 Sample.postpone Sample.stored
    = (inl (RequestValidationError [("date", "Input should be None")]), Sample.stored) ∧
  (db_movies Sample.stored !! 0%nat) ≫= (λ m, MovieModel.cols m !! "date")
    = Some (VDate 738946).
Proof.
  destruct (PATCH_movie_refuses_date 1 Sample.postpone Sample.stored (Sample.today + 400)
              eq_refl) as (errs & Hrun & _).
  assert (errs = [("date", "Input should be None")]) as <-.
  { assert ((PATCH_movie 1 Sample.postpone Sample.stored).1
            = inl (RequestValidationError [("date", "Input should be None")])) as H1
      by (vm_compute; reflexivity).
    rewrite Hrun in H1. simpl in H1. congruence. }
  split; [exact Hrun|]. vm_compute. reflexivity.
Defined.

(** ** get_movies *)

#[local] Instance id_desc_total : Total id_desc.
Proof. intros a b. unfold id_desc. lia. Qed.

#[local] Instance id_desc_trans : Transitive id_desc.
Proof. intros a b c. unfold id_desc. lia. Qed.

(** [ceil_div a b] is the least number of pages of size [b] that hold [a]
    items. *)
Lemma ceil_div_bounds a b :
  1 ≤ b → (ceil_div a b - 1) * b < a ≤ ceil_div a b * b.
Proof.
  intros Hb. unfold ceil_div.
  pose proof (Z.div_mod (- a) b ltac:(lia)) as Hdm.
  pose proof (Z.mod_pos_bound (- a) b ltac:(lia)) as Hm.
  nia.
Qed.

Lemma ceil_div_least a b n :
  1 ≤ b → a ≤ n * b ↔ ceil_div a b ≤ n.
Proof.
  intros Hb. pose proof (ceil_div_bounds a b Hb) as [Hlo Hhi]. split; intros H; nia.
Qed.

Lemma query_errors_nil page per_page :
  query_errors page per_page = [] ↔ 1 ≤ page ∧ 1 ≤ per_page ≤ 20.
Proof.
  unfold query_errors. repeat case_decide; simpl; split; try done; try lia.
  all: by intros [_ [? ?]]; lia.
Qed.

Lemma get_movies_run page per_page db :
  db_movies db ≠ [] →
  page ≤ ceil_div (Z.of_nat (length (db_movies db))) per_page →
  get_movies page per_page db =
    (inr {| movies := list_item <$>
              take (Z.to_nat per_page)
                (drop (Z.to_nat ((page - 1) * per_page)) (merge_sort id_desc (db_movies db)));
            total_pages := ceil_div (Z.of_nat (length (db_movies db))) per_page;
            total_items := Z.of_nat (length (db_movies db));
            prev_page := if decide (1 < page) then Some (page_url (page - 1) per_page)
                         else None;
            next_page :=
              if decide (page < ceil_div (Z.of_nat (length (db_movies db))) per_page)
              then Some (page_url (page + 1) per_page) else None |}, db).
Proof.
  intros Hne Hpage. unfold get_movies. rewrite bind_unfold. simpl.
  rewrite decide_False by (destruct (db_movies db); [done|simpl; lia]).
  by rewrite decide_False by lia.
Qed.

Lemma get_movies_raises page per_page db e db' :
  get_movies page per_page db = (inl e, db') →
  e = no_movies ∧ db' = db ∧
  (Z.of_nat (length (db_movies db)) = 0 ∨
   ceil_div (Z.of_nat (length (db_movies db))) per_page < page).
Proof.
  unfold get_movies. rewrite bind_unfold. simpl.
  case_decide; [intros [= <- <-]; auto|].
  case_decide; [intros [= <- <-]; auto|]. done.
Qed.

(** C5. On a store that holds movies, for a page size from 1 to 20 and a
    page from 1 to the number of pages, the list request succeeds and
    leaves the store alone. Its movies are the summaries of the rows
    sorted by descending id, without the first (page-1)*per_page rows and
    cut after per_page rows; the page is never empty. It reports the
    number of movies and the number of pages, the least count of pages of
    that size holding them all. The previous-page link is present exactly
    when page > 1 and the next-page link exactly when page is below the
    number of pages; both are the path /theater/movies/ with the page and
    the page size as query parameters. *)
Theorem get_movies_page page per_page db :
  db_movies db ≠ [] →
  1 ≤ per_page ≤ 20 →
  1 ≤ page ≤ ceil_div (Z.of_nat (length (db_movies db))) per_page →
  ∃ sorted resp,
    GET_movies page per_page db = (inr resp, db) ∧
    sorted ≡ₚ db_movies db ∧ StronglySorted id_desc sorted ∧
    movies resp = list_item <$>
      take (Z.to_nat per_page) (drop (Z.to_nat ((page - 1) * per_page)) sorted) ∧
    Z.of_nat (length (movies resp))
      = Z.min per_page (total_items resp - (page - 1) * per_page) ∧
    0 < Z.of_nat (length (movies resp)) ∧
    total_items resp = Z.of_nat (length (db_movies db)) ∧
    total_pages resp = ceil_div (total_items resp) per_page ∧
    (total_pages resp - 1) * per_page < total_items resp ≤ total_pages resp * per_page ∧
    prev_page resp =
      (if decide (1 < page)
       then Some ("/theater/movies/?page=" +:+ pretty (page - 1) +:+
                  "&per_page=" +:+ pretty per_page)
       else None) ∧
    next_page resp =
      (if decide (page < total_pages resp)
       then Some ("/theater/movies/?page=" +:+ pretty (page + 1) +:+
                  "&per_page=" +:+ pretty per_page)
       else None).
Proof.
  intros Hne Hpp Hpage.
  exists (merge_sort id_desc (db_movies db)). eexists. split.
  { unfold GET_movies.
    rewrite (proj2 (query_errors_nil page per_page)) by lia.
    apply get_movies_run; [done|lia]. }
  simpl.
  pose proof (ceil_div_bounds (Z.of_nat (length (db_movies db))) per_page ltac:(lia)) as Hb.
  pose proof (merge_sort_Permutation id_desc (db_movies db)) as Hperm.
  assert (length (list_item <$>
      take (Z.to_nat per_page)
        (drop (Z.to_nat ((page - 1) * per_page)) (merge_sort id_desc (db_movies db))))
    = Z.to_nat (Z.min per_page
        (Z.of_nat (length (db_movies db)) - (page - 1) * per_page))) as Hlen.
  { rewrite length_fmap, length_take, length_drop, (Permutation_length Hperm). nia. }
  split_and!; try done.
  - apply StronglySorted_merge_sort; apply _.
  - rewrite Hlen. nia.
  - rewrite Hlen. nia.
  - lia.
  - lia.
Qed.

Lemma library_nonempty : db_movies Sample.library ≠ [].
Proof. vm_compute. discriminate. Qed.

Lemma library_size : Z.of_nat (length (db_movies Sample.library)) = 25.
Proof. vm_compute. reflexivity. Qed.

Lemma get_movies_page_witness :
  db_movies Sample.library ≠ [] ∧
  1 ≤ 3 ≤ ceil_div (Z.of_nat (length (db_movies Sample.library))) 10 ∧
  ∃ resp,
    GET_movies 3 10 Sample.library = (inr resp, Sample.library) ∧
    length (movies resp) = 5%nat ∧
    total_pages resp = 3 ∧
    prev_page resp = Some "/theater/movies/?page=2&per_page=10" ∧
    next_page resp = None.
Proof.
  assert (1 ≤ 3 ≤ ceil_div (Z.of_nat (length (db_movies Sample.library))) 10) as Hpage
    by (rewrite library_size; vm_compute; split; discriminate).
  split; [exact library_nonempty|]. split; [exact Hpage|].
  destruct (get_movies_page 3 10 Sample.library library_nonempty ltac:(lia) Hpage)
    as (sorted & resp & Hrun & _ & _ & _ & Hlen & _ & Hti & Htp & _ & Hprev & Hnext).
  exists resp. rewrite Hti, library_size in Htp. rewrite Hti, library_size in Hlen.
  change (ceil_div 25 10) with 3 in Htp.
  split_and!; [exact Hrun| |exact Htp|exact Hprev|].
  - change (Z.min 10 (25 - (3 - 1) * 10)) with 5 in Hlen. lia.
  - rewrite Hnext, Htp. reflexivity.
Defined.

(** The pages of twenty-five movies, ten per page. *)
Lemma library_pages :
  let page p := (GET_movies p 10 Sample.library).1 in
  let view (r : error + MovieListResponse) :=
    match r with
    | inr resp => inr (item_id <$> movies resp, prev_page resp, next_page resp,
                       total_pages resp, total_items resp)
    | inl e => inl e
    end in
  view (page 1) = inr ([25; 24; 23; 22; 21; 20; 19; 18; 17; 16], None,
                       Some "/theater/movies/?page=2&per_page=10", 3, 25) ∧
  view (page 2) = inr ([15; 14; 13; 12; 11; 10; 9; 8; 7; 6],
                       Some "/theater/movies/?page=1&per_page=10",
                       Some "/theater/movies/?page=3&per_page=10", 3, 25) ∧
  view (page 3) = inr ([5; 4; 3; 2; 1],
                       Some "/theater/movies/?page=2&per_page=10", None, 3, 25) ∧
  view (page 4) = inl (HTTPException 404 "No movies found.").
Proof. vm_compute. done. Qed.

(** C6. For a page of at least 1 and a page size from 1 to 20, the list
    request fails with a 404 exactly when the store holds no movie or the
    page exceeds the number of pages, and succeeds on every page up to
    that number when the store holds movies. The number of pages is the
    ceiling of the movie count over the page size: the least number of
    pages of that size that hold all movies. *)
Theorem get_movies_not_found page per_page db :
  1 ≤ page →
  1 ≤ per_page ≤ 20 →
  ((∃ detail db', GET_movies page per_page db = (inl (HTTPException 404 detail), db'))
     ↔ Z.of_nat (length (db_movies db)) = 0 ∨
       ceil_div (Z.of_nat (length (db_movies db))) per_page < page) ∧
  (Z.of_nat (length (db_movies db)) ≠ 0 →
   page ≤ ceil_div (Z.of_nat (length (db_movies db))) per_page →
   ∃ resp, GET_movies page per_page db = (inr resp, db)) ∧
  (∀ n, Z.of_nat (length (db_movies db)) ≤ n * per_page
        ↔ ceil_div (Z.of_nat (length (db_movies db))) per_page ≤ n).
Proof.
  intros Hpage Hpp.
  assert (GET_movies page per_page db = get_movies page per_page db) as ->.
  { unfold GET_movies. by rewrite (proj2 (query_errors_nil page per_page)) by lia. }
  split_and!.
  - split.
    + intros (detail & db' & Hrun). by apply get_movies_raises in Hrun as (_ & _ & ?).
    + intros Hbad. exists "No movies found.", db.
      unfold get_movies. rewrite bind_unfold. simpl.
      case_decide; [done|]. rewrite decide_True; [done|]. lia.
  - intros Hne Hle. eexists. apply get_movies_run; [|done].
    destruct (db_movies db); [done|discriminate].
  - intros n. apply ceil_div_least. lia.
Qed.

Lemma get_movies_not_found_witness :
  (∃ detail db', GET_movies 4 10 Sample.library = (inl (HTTPException 404 detail), db')) ∧
  (∃ detail db', GET_movies 1 10 empty_db = (inl (HTTPException 404 detail), db')) ∧
  (∃ resp, GET_movies 3 10 Sample.library = (inr resp, Sample.library)).
Proof.
  split_and!.
  - apply (get_movies_not_found 4 10 Sample.library); [lia|lia|].
    right. rewrite library_size. vm_compute. reflexivity.
  - apply (get_movies_not_found 1 10 empty_db); [lia|lia|]. by left.
  - apply (get_movies_not_found 3 10 Sample.library); [lia|lia| |].
    + rewrite library_size. lia.
    + rewrite library_size. vm_compute. discriminate.
Defined.

Lemma get_or_create_resolves_witness :
  (length (filter (filter_by {[ "name" := VStr "Drama" ]})
             (db_table Sample.stored GenreModel)) ≤ 1)%nat ∧
  ∃ obj db',
    get_or_create GenreModel {[ "name" := VStr "Drama" ]} Sample.stored = (inr obj, db') ∧
    filter (filter_by {[ "name" := VStr "Drama" ]}) (db_table db' GenreModel) = [obj] ∧
    get_or_create GenreModel {[ "name" := VStr "Drama" ]} db' = (inr obj, db').
Proof.
  assert (length (filter (filter_by {[ "name" := VStr "Drama" ]})
             (db_table Sample.stored GenreModel)) ≤ 1)%nat as Hle
    by (vm_compute; lia).
  split; [exact Hle|].
  destruct (get_or_create_resolves GenreModel {[ "name" := VStr "Drama" ]} Sample.stored Hle)
    as (obj & db' & Hrun & _ & _ & _ & Hf & Hagain).
  exists obj, db'. split_and!; [exact Hrun|exact Hf|exact Hagain].
Defined.

(** ** Worked examples *)

Example isoformat_examples :
  Date.isoformat 1 = "0001-01-01" ∧
  Date.isoformat 730179 = "2000-02-29" ∧
  Date.isoformat Sample.today = "2024-01-15" ∧
  Date.isoformat (Sample.today + 365) = "2025-01-14" ∧
  Date.isoformat (Sample.today + 400) = "2025-02-18" ∧
  Date.isoformat 3652059 = "9999-12-31".
Proof. vm_compute. done. Qed.

(** Names are matched exactly: [drama] does not resolve to the row of
    [Drama] but gets a row of its own. *)
Example get_or_create_case_sensitive :
  let run := get_or_create GenreModel {[ "name" := VStr "drama" ]} Sample.stored in
  (λ r, (row_id r, row_name r)) <$> db_genres Sample.stored
    = [(1, Some "Sci-Fi"); (2, Some "Drama")] ∧
  (λ r, (row_id r, row_name r)) <$> db_genres run.2
    = [(1, Some "Sci-Fi"); (2, Some "Drama"); (3, Some "drama")].
Proof. vm_compute. done. Qed.

(** Twenty-five movies that all name the genre [Drama] share one genre
    row. *)
Example library_shares_genre_row :
  (λ r, (row_id r, row_name r)) <$> db_genres Sample.library = [(1, Some "Drama")] ∧
  Forall (λ m, MovieModel.genres m = [1]) (db_movies Sample.library).
Proof.
  split; [vm_compute; reflexivity|].
  apply Forall_forall. intros m Hm.
  assert (bool_decide (Forall (λ m, MovieModel.genres m = [1]) (db_movies Sample.library))
          = true) as Hall by (vm_compute; reflexivity).
  apply bool_decide_eq_true in Hall. by apply (proj1 (Forall_forall _ _) Hall).
Qed.

(** A field set to null is not a field left out: the first update clears
    the overview, the second leaves it alone. *)
Example update_null_is_not_unset :
  let overviews (r : (error + string) * DB) :=
    (λ m, MovieModel.cols m !! "overview") <$> db_movies r.2 in
  overviews (PATCH_movie 1 Sample.clear_overview Sample.stored) = [Some VNone] ∧
  overviews (PATCH_movie 1 Sample.rescore Sample.stored) = [Some (VStr "")].
Proof. vm_compute. done. Qed.

(** * Further properties of the handlers *)

(** ** Unknown ids *)

Lemma select_detail_nil db movie_id :
  filter (λ m, MovieModel.id m = movie_id) (db_movies db) = [] →
  select_detail db movie_id = [].
Proof. unfold select_detail. by intros ->. Qed.

Lemma get_movie_unknown movie_id db :
  filter (λ m, MovieModel.id m = movie_id) (db_movies db) = [] →
  get_movie movie_id db = (inl not_found, db).
Proof.
  intros Hf. unfold get_movie. rewrite bind_unfold. simpl.
  by rewrite bind_unfold, select_detail_nil.
Qed.

Lemma update_movie_unknown movie_id data db :
  filter (λ m, MovieModel.id m = movie_id) (db_movies db) = [] →
  update_movie movie_id data db = (inl not_found, db).
Proof.
  intros Hf. unfold update_movie. rewrite bind_unfold. simpl. by rewrite bind_unfold, Hf.
Qed.

Lemma delete_movie_unknown movie_id db :
  filter (λ m, MovieModel.id m = movie_id) (db_movies db) = [] →
  delete_movie movie_id db = (inl not_found, db).
Proof.
  intros Hf. unfold delete_movie. rewrite bind_unfold. simpl. by rewrite bind_unfold, Hf.
Qed.

(** X1. On an id that no stored movie has, the detail read, the update
    (whatever its body) and the delete all raise the same 404 and leave the
    store as it is. *)
Theorem unknown_id_not_found movie_id data db :
  (∀ m, m ∈ db_movies db → MovieModel.id m ≠ movie_id) →
  get_movie movie_id db
    = (inl (HTTPException 404 "Movie with the given ID was not found."), db) ∧
  update_movie movie_id data db
    = (inl (HTTPException 404 "Movie with the given ID was not found."), db) ∧
  delete_movie movie_id db
    = (inl (HTTPException 404 "Movie with the given ID was not found."), db).
Proof.
  intros Hno.
  assert (filter (λ m, MovieModel.id m = movie_id) (db_movies db) = []) as Hf
    by (by apply filter_none).
  split_and!.
  - by apply get_movie_unknown.
  - by apply update_movie_unknown.
  - by apply delete_movie_unknown.
Qed.

Lemma unknown_id_not_found_witness :
  get_movie 7 Sample.stored
    = (inl (HTTPException 404 "Movie with the given ID was not found."), Sample.stored) ∧
  delete_movie 7 Sample.stored
    = (inl (HTTPException 404 "Movie with the given ID was not found."), Sample.stored).
Proof.
  assert (∀ m, m ∈ db_movies Sample.stored → MovieModel.id m ≠ 7) as Hno.
  { intros m Hm.
    assert (bool_decide (Forall (λ m, MovieModel.id m ≠ 7) (db_movies Sample.stored)) = true)
      as Hall by (vm_compute; reflexivity).
    apply bool_decide_eq_true in Hall. by apply (proj1 (Forall_forall _ _) Hall). }
  destruct (unknown_id_not_found 7 empty_update Sample.stored Hno) as (Hg & _ & Hd).
  split; [exact Hg|exact Hd].
Defined.

(** ** delete_movie *)

Lemma filter_filter_neg (l : list MovieModel.t) i :
  filter (λ m, MovieModel.id m = i) (filter (λ m, MovieModel.id m ≠ i) l) = [].
Proof.
  apply filter_none. intros m Hm Hid. by apply list_elem_of_filter in Hm as [Hne _].
Qed.

Lemma length_filter_split (l : list MovieModel.t) i :
  (length (filter (λ m, MovieModel.id m = i) l)
   + length (filter (λ m, MovieModel.id m ≠ i) l) = length l)%nat.
Proof.
  induction l as [|m l IH]; [done|].
  destruct (decide (MovieModel.id m = i)).
  - rewrite filter_cons_True, (filter_cons_False (λ m, MovieModel.id m ≠ i)) by auto.
    simpl. lia.
  - rewrite filter_cons_False, (filter_cons_True (λ m, MovieModel.id m ≠ i)) by auto.
    simpl. lia.
Qed.

(** X2. Deleting a stored movie succeeds and removes exactly the row with
    that id: the other movies stay, in order, one movie fewer is stored,
    and no country, genre, actor or language row is touched. Afterwards
    the id is unknown: a detail read and a second delete both raise the
    404. *)
Theorem delete_movie_removes movie_id db movie :
  filter (λ m, MovieModel.id m = movie_id) (db_movies db) = [movie] →
  ∃ db',
    delete_movie movie_id db = (inr tt, db') ∧
    db_movies db' = filter (λ m, MovieModel.id m ≠ movie_id) (db_movies db) ∧
    (∀ m, m ∈ db_movies db' ↔ m ∈ db_movies db ∧ MovieModel.id m ≠ movie_id) ∧
    S (length (db_movies db')) = length (db_movies db) ∧
    (∀ model, db_table db' model = db_table db model) ∧
    get_movie movie_id db'
      = (inl (HTTPException 404 "Movie with the given ID was not found."), db') ∧
    delete_movie movie_id db'
      = (inl (HTTPException 404 "Movie with the given ID was not found."), db').
Proof.
  intros Hf.
  assert (MovieModel.id movie = movie_id) as Hid.
  { assert (movie ∈ filter (λ m, MovieModel.id m = movie_id) (db_movies db)) as Hin
      by (rewrite Hf; by apply list_elem_of_singleton).
    by apply list_elem_of_filter in Hin as [? _]. }
  eexists. split.
  { unfold delete_movie. rewrite bind_unfold. simpl. rewrite bind_unfold, Hf. simpl.
    unfold delete_commit. rewrite bind_unfold. simpl. rewrite Hid. reflexivity. }
  simpl.
  assert (∀ m, m ∈ filter (λ m, MovieModel.id m ≠ movie_id) (db_movies db)
               → MovieModel.id m ≠ movie_id) as Hgone.
  { intros m Hm. by apply list_elem_of_filter in Hm as [? _]. }
  split_and!; try done.
  - intros m. rewrite list_elem_of_filter. tauto.
  - pose proof (length_filter_split (db_movies db) movie_id) as Hlen.
    rewrite Hf in Hlen. simpl in Hlen. lia.
  - apply get_movie_unknown, filter_filter_neg.
  - apply delete_movie_unknown, filter_filter_neg.
Qed.

Lemma delete_movie_removes_witness :
  ∃ db',
    delete_movie 1 Sample.stored = (inr tt, db') ∧
    db_movies db' = [] ∧
    length (db_genres db') = 2%nat ∧
    get_movie 1 db'
      = (inl (HTTPException 404 "Movie with the given ID was not found."), db').
Proof.
  destruct stored_movie_1 as (movie & Hf & _).
  destruct (delete_movie_removes 1 Sample.stored movie Hf)
    as (db' & Hrun & Hms & _ & _ & Hrefs & Hget & _).
  exists db'. split_and!; [exact Hrun| | |exact Hget].
  - rewrite Hms. vm_compute. reflexivity.
  - change (db_genres db') with (db_table db' GenreModel). rewrite Hrefs.
    vm_compute. reflexivity.
Defined.

(** ** What create stores *)

Lemma selectinload_created db mid cols c gs acs ls :
  refs_wf db → c ∈ db_countries db →
  selectinload db (MovieModel.mk mid cols (row_id c) gs acs ls)
    = mkDetail mid cols (Some c) (linked gs (db_genres db)) (linked acs (db_actors db))
        (linked ls (db_languages db)).
Proof.
  intros Hwf Hc. unfold selectinload. simpl.
  pose proof (Hwf CountryModel) as [Hndc _]. simpl in *.
  by rewrite by_id_elem by done.
Qed.

Lemma created_cols_lookup data :
  created_cols data !! "name" = Some (VStr (MovieCreateSchema.name data)) ∧
  created_cols data !! "date" = Some (VDate (MovieCreateSchema.date data)) ∧
  created_cols data !! "score" = Some (VFloat (MovieCreateSchema.score data)) ∧
  created_cols data !! "overview"
    = Some (VStr (default "" (MovieCreateSchema.overview data))) ∧
  created_cols data !! "status" = Some (VStr (MovieCreateSchema.status data)) ∧
  created_cols data !! "budget" = Some (VFloat (MovieCreateSchema.budget data)) ∧
  created_cols data !! "revenue" = Some (VFloat (MovieCreateSchema.revenue data)).
Proof.
  unfold created_cols. split_and!; try reflexivity.
  transitivity (Some (VStr (str_or (MovieCreateSchema.overview data) ""))); [reflexivity|].
  do 2 f_equal. destruct (MovieCreateSchema.overview data) as [s|]; simpl; [|done].
  by case_decide.
Qed.

(** The handler past its checks, with what a later request sees: the new
    row is the last of the table, under an id above every stored one, and
    the detail query on that id loads what the handler returned. *)
Lemma create_movie_stored today data db :
  refs_wf db →
  MovieCreateSchema.date data ≤ today + 365 →
  (∀ m, m ∈ db_movies db →
        ¬ same_name_date (MovieCreateSchema.name data) (MovieCreateSchema.date data) m) →
  ∃ movie new db',
    create_movie today data db = (inr movie, db') ∧
    refs_wf db' ∧ extends db db' ∧
    db_movies db' = db_movies db ++ [new] ∧
    MovieModel.id new = detail_id movie ∧
    MovieModel.cols new = created_cols data ∧
    detail_cols movie = created_cols data ∧
    detail_id movie = next_id (MovieModel.id <$> db_movies db) ∧
    selectinload db' new = movie ∧
    (∃ c, detail_country movie = Some c ∧ c ∈ db_countries db' ∧
          row_cols c !! "code" = Some (VStr (MovieCreateSchema.country data))).
Proof.
  intros Hwf Hd Hnew.
  destruct (create_movie_succeeds today data db Hwf Hd)
    as (c & gs & acs & ls & db' & Hrun & Hwf' & Hext & Hms & Hc & Hck & Hg & Ha & Hl).
  { by apply filter_none. }
  eexists _, _, db'. split; [exact Hrun|]. split_and!; try done; simpl.
  - by apply selectinload_created.
  - by exists c.
Qed.

Lemma remove_dups_NoDup_Permutation (l : list string) :
  NoDup l → remove_dups l ≡ₚ l.
Proof.
  intros Hnd. apply NoDup_Permutation; [apply NoDup_remove_dups|done|].
  intros x. by rewrite elem_of_remove_dups.
Qed.

(** X3. A create whose genre, actor and language lists name nothing
    twice, and which passes its checks, gives the movie an id above every
    stored id and stores exactly the fields of the request: name, date,
    score, status, budget and revenue as sent, the overview or the empty
    string when it is missing or empty, and the country row that carries
    the requested code. A detail read of the new id then succeeds, changes
    nothing, and shows the same id, fields and country as the create
    returned and, up to order, the same relations: rows named as the
    request names them. *)
Theorem create_then_get today data db :
  refs_wf db →
  MovieCreateSchema.date data ≤ today + 365 →
  (∀ m, m ∈ db_movies db →
        ¬ same_name_date (MovieCreateSchema.name data) (MovieCreateSchema.date data) m) →
  NoDup (MovieCreateSchema.genres data) →
  NoDup (MovieCreateSchema.actors data) →
  NoDup (MovieCreateSchema.languages data) →
  ∃ movie got db',
    create_movie today data db = (inr movie, db') ∧
    get_movie (detail_id movie) db' = (inr got, db') ∧
    (detail_id got = detail_id movie ∧ detail_cols got = detail_cols movie ∧
     detail_country got = detail_country movie ∧
     detail_genres got ≡ₚ detail_genres movie ∧
     detail_actors got ≡ₚ detail_actors movie ∧
     detail_languages got ≡ₚ detail_languages movie) ∧
    (row_name <$> detail_genres got ≡ₚ Some <$> MovieCreateSchema.genres data ∧
     row_name <$> detail_actors got ≡ₚ Some <$> MovieCreateSchema.actors data ∧
     row_name <$> detail_languages got ≡ₚ Some <$> MovieCreateSchema.languages data) ∧
    (∀ m, m ∈ db_movies db → MovieModel.id m < detail_id movie) ∧
    (detail_cols movie !! "name" = Some (VStr (MovieCreateSchema.name data)) ∧
     detail_cols movie !! "date" = Some (VDate (MovieCreateSchema.date data)) ∧
     detail_cols movie !! "score" = Some (VFloat (MovieCreateSchema.score data)) ∧
     detail_cols movie !! "overview"
       = Some (VStr (default "" (MovieCreateSchema.overview data))) ∧
     detail_cols movie !! "status" = Some (VStr (MovieCreateSchema.status data)) ∧
     detail_cols movie !! "budget" = Some (VFloat (MovieCreateSchema.budget data)) ∧
     detail_cols movie !! "revenue" = Some (VFloat (MovieCreateSchema.revenue data))) ∧
    (∃ c, detail_country movie = Some c ∧
          row_cols c !! "code" = Some (VStr (MovieCreateSchema.country data))).
Proof.
  intros Hwf Hd Hnew Hndg Hnda Hndl.
  destruct (create_movie_succeeds today data db Hwf Hd)
    as (c & gs & acs & ls & db' & Hrun & Hwf' & _ & Hms & Hc & Hck & Hg & Ha & Hl).
  { by apply filter_none. }
  destruct (linked_names db' GenreModel _ _ eq_refl Hwf' Hg) as [_ Hng].
  destruct (linked_names db' ActorModel _ _ eq_refl Hwf' Ha) as [_ Hna].
  destruct (linked_names db' LanguageModel _ _ eq_refl Hwf' Hl) as [_ Hnl].
  eexists _, _, db'. split; [exact Hrun|]. simpl.
  split.
  { unfold get_movie. rewrite bind_unfold. simpl. rewrite bind_unfold.
    unfold select_detail. rewrite Hms.
    rewrite (select_new_movie (db_movies db)
               (MovieModel.mk _ _ (row_id c) (row_id <$> gs) (row_id <$> acs)
                  (row_id <$> ls)) eq_refl).
    simpl. rewrite selectinload_created by done. reflexivity. }
  simpl. split; [done|]. split.
  { split_and!.
    - by rewrite Hng, remove_dups_NoDup_Permutation.
    - by rewrite Hna, remove_dups_NoDup_Permutation.
    - by rewrite Hnl, remove_dups_NoDup_Permutation. }
  split.
  { intros m Hm. apply next_id_gt, list_elem_of_fmap. by exists m. }
  split; [apply created_cols_lookup|by exists c].
Qed.

Lemma create_then_get_witness :
  ∃ movie got db',
    create_movie Sample.today Sample.dune empty_db = (inr movie, db') ∧
    get_movie (detail_id movie) db' = (inr got, db') ∧
    row_name <$> detail_genres got ≡ₚ [Some "Sci-Fi"; Some "Drama"] ∧
    detail_cols movie !! "overview" = Some (VStr "").
Proof.
  destruct (create_then_get Sample.today Sample.dune empty_db)
    as (movie & got & db' & Hrun & Hget & _ & (Hg & _) & _ & (_ & _ & _ & Ho & _) & _).
  - exact empty_db_wf.
  - vm_compute; discriminate.
  - intros m Hm. by apply elem_of_nil in Hm.
  - apply (bool_decide_unpack _). vm_compute. exact I.
  - apply (bool_decide_unpack _). vm_compute. exact I.
  - apply (bool_decide_unpack _). vm_compute. exact I.
  - exists movie, got, db'. split_and!; [exact Hrun|exact Hget|exact Hg|exact Ho].
Defined.

(** X4. After a create has succeeded, any further create with the same
    name and release date on the same day, whatever its other fields, is
    refused with the 409 that quotes the name and the date, and leaves the
    store as the first create left it. *)
Theorem create_movie_twice today data data2 db :
  refs_wf db →
  MovieCreateSchema.date data ≤ today + 365 →
  (∀ m, m ∈ db_movies db →
        ¬ same_name_date (MovieCreateSchema.name data) (MovieCreateSchema.date data) m) →
  MovieCreateSchema.name data2 = MovieCreateSchema.name data →
  MovieCreateSchema.date data2 = MovieCreateSchema.date data →
  ∃ movie db',
    create_movie today data db = (inr movie, db') ∧
    create_movie today data2 db' =
      (inl (HTTPException 409
              (conflict_detail (MovieCreateSchema.name data) (MovieCreateSchema.date data))),
       db').
Proof.
  intros Hwf Hd Hnew Hn2 Hd2.
  destruct (create_movie_stored today data db Hwf Hd Hnew)
    as (movie & new & db' & Hrun & _ & _ & Hms & _ & Hcols & _).
  exists movie, db'. split; [exact Hrun|].
  rewrite <- Hn2, <- Hd2. apply (create_movie_existing today data2 db' new); [lia|].
  rewrite Hms, filter_app, filter_none, Hn2, Hd2.
  - rewrite filter_cons_True; [done|].
    unfold same_name_date. rewrite Hcols.
    by destruct (created_cols_lookup data) as (-> & -> & _).
  - by rewrite Hn2, Hd2.
Qed.

Lemma create_movie_twice_witness :
  ∃ movie db',
    create_movie Sample.today Sample.dune empty_db = (inr movie, db') ∧
    create_movie Sample.today Sample.dune_twice_scifi db' =
      (inl (HTTPException 409
         "A movie with the name 'Dune' and release date '2024-03-01' already exists."), db').
Proof.
  refine (create_movie_twice Sample.today Sample.dune Sample.dune_twice_scifi empty_db
            empty_db_wf _ _ eq_refl eq_refl).
  - vm_compute; discriminate.
  - intros m Hm. by apply elem_of_nil in Hm.
Defined.

(** ** Invariants *)

Lemma create_movie_ambiguous today data db m m' ms :
  MovieCreateSchema.date data ≤ today + 365 →
  filter (same_name_date (MovieCreateSchema.name data) (MovieCreateSchema.date data))
    (db_movies db) = m :: m' :: ms →
  create_movie today data db = (inl MultipleResultsFound, db).
Proof.
  destruct data; simpl. intros Hd Hf. unfold create_movie.
  rewrite decide_False by lia. rewrite bind_unfold. simpl. by rewrite bind_unfold, Hf.
Qed.

Lemma stored_invariants :
  refs_wf Sample.stored ∧ ids_unique Sample.stored ∧ movies_unique Sample.stored.
Proof.
  split_and!.
  - intros []; split; apply (bool_decide_unpack _); vm_compute; exact I.
  - apply (bool_decide_unpack _). vm_compute. exact I.
  - apply (bool_decide_unpack _). vm_compute. exact I.
Qed.

(** X5. The create request keeps the store well formed whatever it
    answers: if the reference tables are keyed, movie ids distinct and
    (name, date) pairs distinct before the request, they are so after it. *)
Theorem POST_movies_keeps_invariants today body db :
  refs_wf db → ids_unique db → movies_unique db →
  refs_wf (POST_movies today body db).2 ∧
  ids_unique (POST_movies today body db).2 ∧
  movies_unique (POST_movies today body db).2.
Proof.
  intros Hwf Hids Huniq. unfold POST_movies.
  destruct (MovieCreateSchema.errors body) as [|err errs]; [|done].
  destruct (decide (today + 365 < MovieCreateSchema.date body)) as [Hd|Hd].
  { by rewrite create_movie_too_far. }
  destruct (filter (same_name_date (MovieCreateSchema.name body)
                      (MovieCreateSchema.date body)) (db_movies db))
    as [|m [|m' ms]] eqn:Hf.
  - destruct (create_movie_stored today body db Hwf ltac:(lia))
      as (movie & new & db' & Hrun & Hwf' & _ & Hms & Hid & Hcols & _ & Hfresh & _).
    { intros m Hm Hs.
      assert (m ∈ filter (same_name_date (MovieCreateSchema.name body)
                            (MovieCreateSchema.date body)) (db_movies db)) as Hin
        by (by apply list_elem_of_filter).
      rewrite Hf in Hin. by apply elem_of_nil in Hin. }
    rewrite Hrun. simpl. split; [done|]. unfold ids_unique, movies_unique.
    rewrite Hms, !fmap_app. simpl. split.
    + apply NoDup_app. split_and!; [done| |apply NoDup_singleton].
      intros i Hi ->%list_elem_of_singleton.
      rewrite Hid, Hfresh in Hi. by apply next_id_fresh in Hi.
    + apply NoDup_app. split_and!; [done| |apply NoDup_singleton].
      intros k Hk ->%list_elem_of_singleton.
      apply list_elem_of_fmap in Hk as (m & Hm & Hin).
      assert (m ∈ filter (same_name_date (MovieCreateSchema.name body)
                            (MovieCreateSchema.date body)) (db_movies db)) as Hin'.
      { apply list_elem_of_filter. split; [|done]. unfold same_name_date.
        rewrite Hcols in Hm.
        destruct (created_cols_lookup body) as (Hn & Hdt & _).
        rewrite Hn, Hdt in Hm. by injection Hm as <- <-. }
      rewrite Hf in Hin'. by apply elem_of_nil in Hin'.
  - by rewrite (create_movie_existing today body db m) by (done || lia).
  - by rewrite (create_movie_ambiguous today body db m m' ms) by (done || lia).
Qed.

Lemma POST_movies_keeps_invariants_witness :
  refs_wf Sample.stored ∧ ids_unique Sample.stored ∧ movies_unique Sample.stored.
Proof.
  apply (POST_movies_keeps_invariants Sample.today Sample.dune empty_db).
  - exact empty_db_wf.
  - apply NoDup_nil_2.
  - apply NoDup_nil_2.
Defined.

(** ** The list after a create *)

Lemma sorted_head_max (l sorted : list MovieModel.t) new :
  sorted ≡ₚ l ++ [new] → StronglySorted id_desc sorted →
  (∀ m, m ∈ l → MovieModel.id m < MovieModel.id new) →
  ∃ rest, sorted = new :: rest.
Proof.
  intros Hperm Hsorted Hmax.
  destruct sorted as [|x rest].
  { apply Permutation_length in Hperm. rewrite length_app in Hperm. simpl in Hperm. lia. }
  exists rest. f_equal.
  apply StronglySorted_inv in Hsorted as [_ Hall]. rewrite Forall_forall in Hall.
  assert (x ∈ l ++ [new]) as Hx by (rewrite <- Hperm; left).
  assert (new ∈ x :: rest) as Hn
    by (rewrite Hperm; apply elem_of_app; right; by apply list_elem_of_singleton).
  apply elem_of_app in Hx as [Hx|Hx%list_elem_of_singleton]; [|done].
  apply Hmax in Hx.
  apply elem_of_cons in Hn as [->|Hn]; [done|].
  apply Hall in Hn. unfold id_desc in Hn. lia.
Qed.

(** X6. Newest first: right after a create has succeeded, the first
    movie of the first page of the list, for any page size from 1 to 20, is
    the summary of the movie just created. *)
Theorem created_movie_heads_list today data db per_page :
  refs_wf db →
  MovieCreateSchema.date data ≤ today + 365 →
  (∀ m, m ∈ db_movies db →
        ¬ same_name_date (MovieCreateSchema.name data) (MovieCreateSchema.date data) m) →
  1 ≤ per_page ≤ 20 →
  ∃ movie db' resp rest,
    create_movie today data db = (inr movie, db') ∧
    GET_movies 1 per_page db' = (inr resp, db') ∧
    movies resp =
      mkItem (detail_id movie)
        (Some (VStr (MovieCreateSchema.name data)))
        (Some (VDate (MovieCreateSchema.date data)))
        (Some (VFloat (MovieCreateSchema.score data)))
        (Some (VStr (default "" (MovieCreateSchema.overview data)))) :: rest.
Proof.
  intros Hwf Hd Hnew Hpp.
  destruct (create_movie_stored today data db Hwf Hd Hnew)
    as (movie & new & db' & Hrun & _ & _ & Hms & Hid & Hcols & _ & Hfresh & _).
  assert (db_movies db' ≠ []) as Hne by (rewrite Hms; by destruct (db_movies db)).
  pose proof (ceil_div_bounds (Z.of_nat (length (db_movies db'))) per_page ltac:(lia)) as Hb.
  assert (0 < Z.of_nat (length (db_movies db'))) as Hpos
    by (destruct (db_movies db'); [done|simpl; lia]).
  destruct (sorted_head_max (db_movies db) (merge_sort id_desc (db_movies db')) new)
    as [rest Hsorted].
  { rewrite <- Hms. apply merge_sort_Permutation. }
  { apply StronglySorted_merge_sort; apply _. }
  { intros m Hm. rewrite Hid, Hfresh. apply next_id_gt, list_elem_of_fmap. by exists m. }
  assert (∃ n, Z.to_nat per_page = S n) as [n Hn]
    by (exists (Z.to_nat (per_page - 1)); lia).
  eexists movie, db', _, _. split; [exact Hrun|]. split.
  { unfold GET_movies. rewrite (proj2 (query_errors_nil 1 per_page)) by lia.
    apply get_movies_run; [done|nia]. }
  assert (list_item new =
    mkItem (detail_id movie)
      (Some (VStr (MovieCreateSchema.name data)))
      (Some (VDate (MovieCreateSchema.date data)))
      (Some (VFloat (MovieCreateSchema.score data)))
      (Some (VStr (default "" (MovieCreateSchema.overview data))))) as <-.
  { unfold list_item. rewrite Hid, Hcols.
    by destruct (created_cols_lookup data) as (-> & -> & -> & -> & _). }
  simpl. rewrite Hsorted, Hn. reflexivity.
Qed.

Lemma created_movie_heads_list_witness :
  ∃ movie db' resp rest,
    create_movie Sample.today Sample.dune empty_db = (inr movie, db') ∧
    GET_movies 1 10 db' = (inr resp, db') ∧
    movies resp =
      mkItem (detail_id movie) (Some (VStr "Dune")) (Some (VDate 738946))
        (Some (VFloat (80 # 1))) (Some (VStr "")) :: rest.
Proof.
  refine (created_movie_heads_list Sample.today Sample.dune empty_db 10 empty_db_wf _ _ _).
  - vm_compute; discriminate.
  - intros m Hm. by apply elem_of_nil in Hm.
  - lia.
Defined.

(** ** Pages *)

Lemma chunks_join {A} (l : list A) (n k : nat) :
  (length l ≤ k * n)%nat →
  mjoin ((λ i, take n (drop (i * n) l)) <$> seq 0 k) = l.
Proof.
  revert l. induction k as [|k IH]; intros l Hlen.
  - destruct l; [done|simpl in Hlen; lia].
  - transitivity (take n l ++ drop n l); [|apply take_drop].
    simpl. rewrite <- fmap_S_seq, <- list_fmap_compose. f_equal.
    etrans; [|apply (IH (drop n l)); rewrite length_drop; lia].
    f_equal. apply list_fmap_ext. intros _ i _. simpl.
    by rewrite drop_drop.
Qed.

Lemma join_fmap_fmap {A B C} (f : B → C) (g : A → list B) (l : list A) :
  mjoin ((λ x, f <$> g x) <$> l) = f <$> mjoin (g <$> l).
Proof.
  induction l as [|x l IH]; [done|].
  change (mjoin ((λ x, f <$> g x) <$> x :: l))
    with ((f <$> g x) ++ mjoin ((λ x, f <$> g x) <$> l)).
  change (mjoin (g <$> x :: l)) with (g x ++ mjoin (g <$> l)).
  by rewrite fmap_app, IH.
Qed.

Lemma page_movies_run page per_page db :
  1 ≤ per_page ≤ 20 →
  1 ≤ page ≤ ceil_div (Z.of_nat (length (db_movies db))) per_page →
  page_movies page per_page db =
    list_item <$> take (Z.to_nat per_page)
      (drop (Z.to_nat ((page - 1) * per_page)) (merge_sort id_desc (db_movies db))).
Proof.
  intros Hpp Hpage. unfold page_movies, GET_movies.
  rewrite (proj2 (query_errors_nil page per_page)) by lia.
  rewrite get_movies_run; [done| |lia].
  intros Hnil. rewrite Hnil in Hpage.
  assert (ceil_div (Z.of_nat (length (@nil MovieModel.t))) per_page = 0) as Hz
    by (unfold ceil_div; simpl; by rewrite Z.div_0_l by lia).
  rewrite Hz in Hpage. lia.
Qed.

(** X7. The pages of the list partition the movies: for a page size from
    1 to 20, the pages 1 to the number of pages, one after the other, are
    exactly the summaries of all stored movies by descending id, so every
    stored movie is on some page, and the pages together hold as many
    entries as there are movies. *)
Theorem pages_partition per_page db :
  1 ≤ per_page ≤ 20 →
  mjoin ((λ page, page_movies page per_page db)
           <$> seqZ 1 (ceil_div (Z.of_nat (length (db_movies db))) per_page))
    = list_item <$> merge_sort id_desc (db_movies db) ∧
  (∀ m, m ∈ db_movies db →
     ∃ page, 1 ≤ page ≤ ceil_div (Z.of_nat (length (db_movies db))) per_page ∧
             list_item m ∈ page_movies page per_page db) ∧
  length (mjoin ((λ page, page_movies page per_page db)
           <$> seqZ 1 (ceil_div (Z.of_nat (length (db_movies db))) per_page)))
    = length (db_movies db).
Proof.
  intros Hpp.
  set (tp := ceil_div (Z.of_nat (length (db_movies db))) per_page).
  set (sorted := merge_sort id_desc (db_movies db)).
  pose proof (ceil_div_bounds (Z.of_nat (length (db_movies db))) per_page ltac:(lia)) as Hb.
  fold tp in Hb.
  pose proof (merge_sort_Permutation id_desc (db_movies db)) as Hperm. fold sorted in Hperm.
  assert (mjoin ((λ page, page_movies page per_page db) <$> seqZ 1 tp)
            = list_item <$> sorted) as Hjoin.
  { unfold seqZ. rewrite <- list_fmap_compose.
    rewrite (list_fmap_ext _
      (λ i, list_item <$> take (Z.to_nat per_page) (drop (i * Z.to_nat per_page) sorted))).
    - rewrite join_fmap_fmap, chunks_join; [done|].
      rewrite (Permutation_length Hperm). nia.
    - intros j i Hi. apply lookup_seq in Hi as [-> Hlt]. simpl.
      rewrite page_movies_run by lia. fold sorted. do 3 f_equal. nia. }
  split_and!; [exact Hjoin| |].
  - intros m Hm.
    assert (list_item m ∈ mjoin ((λ page, page_movies page per_page db) <$> seqZ 1 tp))
      as Hin.
    { rewrite Hjoin. apply list_elem_of_fmap. exists m. split; [done|]. by rewrite Hperm. }
    apply list_elem_of_join in Hin as (items & Hitems & Hpages).
    apply list_elem_of_fmap in Hpages as (page & -> & Hpage).
    apply elem_of_seqZ in Hpage. exists page. split; [lia|done].
  - by rewrite Hjoin, length_fmap, (Permutation_length Hperm).
Qed.

Lemma pages_partition_witness :
  item_id <$> mjoin ((λ page, page_movies page 10 Sample.library) <$> seqZ 1 3)
    = item_id <$> (list_item <$> merge_sort id_desc (db_movies Sample.library)).
Proof.
  assert (ceil_div (Z.of_nat (length (db_movies Sample.library))) 10 = 3) as Htp
    by (rewrite library_size; reflexivity).
  destruct (pages_partition 10 Sample.library ltac:(lia)) as (Hjoin & _ & _).
  rewrite Htp in Hjoin. by rewrite Hjoin.
Defined.

(** ** Validation of the update body *)

Lemma app_not_nil {A} (l1 l2 : list A) : l1 ++ l2 ≠ [] ↔ l1 ≠ [] ∨ l2 ≠ [].
Proof. destruct l1, l2; simpl; split; try done; auto; by intros [|]. Qed.

Lemma update_name_errors (f : option (option string)) :
  MovieUpdateSchema.field_errors "name" (MovieUpdateSchema.max_length 255) f ≠ [] ↔
  ∃ s, f = Some (Some s) ∧ (255 < String.length s)%nat.
Proof.
  destruct f as [[s|]|]; simpl.
  - unfold MovieCreateSchema.max_length. case_decide; simpl; split; try done.
    + intros _. by exists s.
    + intros (s' & [= <-] & ?). lia.
  - split; [done|]. by intros (? & [=] & _).
  - split; [done|]. by intros (? & [=] & _).
Qed.

Lemma update_score_errors (f : option (option Q)) :
  MovieUpdateSchema.field_errors "score" MovieUpdateSchema.validate_score f ≠ [] ↔
  ∃ q, f = Some (Some q) ∧ ((q < 0)%Q ∨ (100 < q)%Q).
Proof.
  destruct f as [[q|]|]; simpl.
  - destruct (Qle_bool 0 q) eqn:H0, (Qle_bool q 100) eqn:H1; simpl; split; try done.
    + intros (q' & [= <-] & [Hlt|Hlt]).
      * apply Qle_bool_iff in H0. by apply Qlt_not_le in Hlt.
      * apply Qle_bool_iff in H1. by apply Qlt_not_le in Hlt.
    + intros _. exists q. split; [done|]. right. apply Qnot_le_lt.
      rewrite <- Qle_bool_iff. by rewrite H1.
    + intros _. exists q. split; [done|]. left. apply Qnot_le_lt.
      rewrite <- Qle_bool_iff. by rewrite H0.
    + intros _. exists q. split; [done|]. left. apply Qnot_le_lt.
      rewrite <- Qle_bool_iff. by rewrite H0.
  - split; [done|]. by intros (? & [=] & _).
  - split; [done|]. by intros (? & [=] & _).
Qed.

Lemma update_money_errors field (f : option (option Q)) :
  MovieUpdateSchema.field_errors field MovieUpdateSchema.validate_money f ≠ [] ↔
  ∃ q, f = Some (Some q) ∧ (q < 0)%Q.
Proof.
  destruct f as [[q|]|]; simpl.
  - destruct (Qlt_le_dec q 0) as [Hlt|Hle]; simpl; split; try done.
    + intros _. by exists q.
    + intros (q' & [= <-] & Hlt). by apply Qlt_not_le in Hlt.
  - split; [done|]. by intros (? & [=] & _).
  - split; [done|]. by intros (? & [=] & _).
Qed.

Lemma update_movie_raises movie_id data db e db' :
  update_movie movie_id data db = (inl e, db') →
  (e = not_found ∨ e = MultipleResultsFound) ∧ db' = db.
Proof.
  unfold update_movie. rewrite bind_unfold. simpl. rewrite bind_unfold.
  destruct (filter _ (db_movies db)) as [|m [|m' ms]]; simpl.
  - intros [= <- <-]. auto.
  - rewrite bind_unfold. simpl. done.
  - intros [= <- <-]. auto.
Qed.

Lemma update_date_errors (f : option (option Z)) :
  MovieUpdateSchema.field_errors "date" MovieUpdateSchema.none_only f ≠ [] ↔
  ∃ d, f = Some (Some d).
Proof.
  destruct f as [[d|]|]; simpl; split; try done.
  - intros _. by exists d.
  - by intros (? & [=]).
  - by intros (? & [=]).
Qed.

(** X8. The update request is refused with a request validation error
    exactly when a field that the body sets to a value is not admitted: a
    name longer than 255 characters, any date, a score outside [0, 100], a
    negative budget or a negative revenue. Fields left out or set to null
    are never at fault. The error lists the offending fields and leaves
    the store untouched; it does not depend on whether the movie exists. *)
Theorem PATCH_movie_validation movie_id body db :
  ((∃ errs db', PATCH_movie movie_id body db = (inl (RequestValidationError errs), db')) ↔
     (∃ s, MovieUpdateSchema.name body = Some (Some s) ∧ (255 < String.length s)%nat) ∨
     (∃ d, MovieUpdateSchema.date body = Some (Some d)) ∨
     (∃ q, MovieUpdateSchema.score body = Some (Some q) ∧ ((q < 0)%Q ∨ (100 < q)%Q)) ∨
     (∃ q, MovieUpdateSchema.budget body = Some (Some q) ∧ (q < 0)%Q) ∨
     (∃ q, MovieUpdateSchema.revenue body = Some (Some q) ∧ (q < 0)%Q)) ∧
  (∀ errs db',
     PATCH_movie movie_id body db = (inl (RequestValidationError errs), db') →
     errs = MovieUpdateSchema.errors body ∧ db' = db).
Proof.
  assert (MovieUpdateSchema.errors body ≠ [] ↔
     (∃ s, MovieUpdateSchema.name body = Some (Some s) ∧ (255 < String.length s)%nat) ∨
     (∃ d, MovieUpdateSchema.date body = Some (Some d)) ∨
     (∃ q, MovieUpdateSchema.score body = Some (Some q) ∧ ((q < 0)%Q ∨ (100 < q)%Q)) ∨
     (∃ q, MovieUpdateSchema.budget body = Some (Some q) ∧ (q < 0)%Q) ∨
     (∃ q, MovieUpdateSchema.revenue body = Some (Some q) ∧ (q < 0)%Q)) as Herrs.
  { unfold MovieUpdateSchema.errors.
    by rewrite !app_not_nil, update_name_errors, update_date_errors, update_score_errors,
      !update_money_errors. }
  rewrite <- Herrs. unfold PATCH_movie.
  destruct (MovieUpdateSchema.errors body) as [|err errs0]; split.
  - split; [|done]. intros (errs & db' & Hrun).
    apply update_movie_raises in Hrun as [[[=]|[=]] _].
  - intros errs db' Hrun. apply update_movie_raises in Hrun as [[[=]|[=]] _].
  - split; [done|]. intros _. by eexists _, _.
  - by intros errs db' [= <- <-].
Qed.

(** ** Updates compose *)

Lemma movie_eq (m1 m2 : MovieModel.t) :
  MovieModel.id m1 = MovieModel.id m2 →
  MovieModel.cols m1 = MovieModel.cols m2 →
  MovieModel.country m1 = MovieModel.country m2 →
  MovieModel.genres m1 = MovieModel.genres m2 →
  MovieModel.actors m1 = MovieModel.actors m2 →
  MovieModel.languages m1 = MovieModel.languages m2 →
  m1 = m2.
Proof. destruct m1, m2; simpl; by intros -> -> -> -> -> ->. Qed.

Lemma assigned_idem {A} (inj : A → value) f old :
  assigned inj f (assigned inj f old) = assigned inj f old.
Proof. by destruct f as [[a|]|]. Qed.

Lemma dump_cols m data key :
  MovieModel.cols (foldl assign m (MovieUpdateSchema.model_dump_exclude_unset data)) !! key
    = updated data key (MovieModel.cols m !! key).
Proof.
  unfold updated. repeat case_decide; subst; try dump_lookup.
  unfold MovieUpdateSchema.model_dump_exclude_unset.
  rewrite !foldl_app. by rewrite !foldl_dump_other by done.
Qed.

Lemma updated_idem data key old :
  updated data key (updated data key old) = updated data key old.
Proof. unfold updated. repeat case_decide; by rewrite ?assigned_idem. Qed.

Lemma dump_twice data m :
  foldl assign (foldl assign m (MovieUpdateSchema.model_dump_exclude_unset data))
    (MovieUpdateSchema.model_dump_exclude_unset data)
  = foldl assign m (MovieUpdateSchema.model_dump_exclude_unset data).
Proof.
  set (dump := MovieUpdateSchema.model_dump_exclude_unset data).
  destruct (foldl_setattr_frame dump (foldl assign m dump)) as (Hi & Hc & Hg & Ha & Hl).
  apply movie_eq; try done.
  apply map_eq. intros key. unfold dump. by rewrite !dump_cols, updated_idem.
Qed.

Lemma replace_twice (l : list MovieModel.t) i m' :
  MovieModel.id m' = i →
  (λ m, if decide (MovieModel.id m = i) then m' else m)
    <$> ((λ m, if decide (MovieModel.id m = i) then m' else m) <$> l)
  = (λ m, if decide (MovieModel.id m = i) then m' else m) <$> l.
Proof.
  intros Hid. rewrite <- list_fmap_compose. apply list_fmap_ext. intros _ m _. simpl.
  destruct (decide (MovieModel.id m = i)); [by rewrite decide_True|by rewrite decide_False].
Qed.

(** X9. Updating is idempotent: on a stored movie, sending the same body a
    second time succeeds again and leaves the store exactly as the first
    update left it. *)
Theorem update_movie_idempotent movie_id data db movie :
  filter (λ m, MovieModel.id m = movie_id) (db_movies db) = [movie] →
  ∃ db',
    update_movie movie_id data db = (inr "Movie updated successfully.", db') ∧
    update_movie movie_id data db' = (inr "Movie updated successfully.", db').
Proof.
  intros Hf.
  destruct (update_movie_run movie_id data db movie Hf) as (Hrun & Hid & Hf').
  eexists. split; [exact Hrun|].
  match goal with |- update_movie _ _ ?d = _ => set (db1 := d) end.
  destruct (update_movie_run movie_id data db1 _ Hf') as (Hrun' & _ & _).
  rewrite Hrun'. f_equal. unfold db1. simpl.
  rewrite dump_twice, replace_twice by done. reflexivity.
Qed.

Lemma update_movie_idempotent_witness :
  ∃ db',
    update_movie 1 Sample.rescore Sample.stored = (inr "Movie updated successfully.", db') ∧
    update_movie 1 Sample.rescore db' = (inr "Movie updated successfully.", db').
Proof.
  destruct stored_movie_1 as (movie & Hf & _).
  exact (update_movie_idempotent 1 Sample.rescore Sample.stored movie Hf).
Defined.

(** X10. An update whose body sets no field succeeds on a stored movie and
    changes nothing in the store. *)
Theorem update_movie_empty_body movie_id db movie :
  filter (λ m, MovieModel.id m = movie_id) (db_movies db) = [movie] →
  update_movie movie_id empty_update db = (inr "Movie updated successfully.", db).
Proof.
  intros Hf.
  destruct (update_movie_run movie_id empty_update db movie Hf) as (Hrun & _ & _).
  rewrite Hrun. f_equal. simpl.
  transitivity (db_set_movies db (db_movies db)); [|by destruct db].
  f_equal. rewrite <- (list_fmap_id (db_movies db)) at 2.
  apply list_fmap_ext. intros j m Hm. simpl. case_decide as Hid; [|done].
  symmetry. eapply (filter_singleton_elem _ _ _ _ Hf); [|done].
  by eapply list_elem_of_lookup_2.
Qed.

Lemma update_movie_empty_body_witness :
  update_movie 1 empty_update Sample.stored
    = (inr "Movie updated successfully.", Sample.stored).
Proof.
  destruct stored_movie_1 as (movie & Hf & _).
  exact (update_movie_empty_body 1 Sample.stored movie Hf).
Defined.

(** ** Ambiguous keys *)

(** X11. The resolver raises only when two or more rows match the supplied
    fields; the exception is then [MultipleResultsFound] and the store is
    left as it is. In particular it never raises on a table with at most
    one matching row. *)
Theorem get_or_create_ambiguous model kwargs db :
  ((∃ e db', get_or_create model kwargs db = (inl e, db'))
     ↔ (2 ≤ length (filter (filter_by kwargs) (db_table db model)))%nat) ∧
  (∀ e db', get_or_create model kwargs db = (inl e, db') →
            e = MultipleResultsFound ∧ db' = db).
Proof.
  split; [|intros e db'; apply get_or_create_raises].
  unfold get_or_create. rewrite bind_unfold. simpl. rewrite bind_unfold.
  destruct (filter _ _) as [|r [|r' l]]; simpl; split.
  - by intros (e & db' & [=]).
  - lia.
  - by intros (e & db' & [=]).
  - lia.
  - intros _. lia.
  - intros _. by eexists _, _.
Qed.

(** ** Updates and deletes keep the store well formed *)

Lemma replace_keeps_ids (l : list MovieModel.t) i m' :
  MovieModel.id m' = i →
  MovieModel.id <$> ((λ m, if decide (MovieModel.id m = i) then m' else m) <$> l)
    = MovieModel.id <$> l.
Proof.
  intros Hid. rewrite <- list_fmap_compose. apply list_fmap_ext. intros _ m _. simpl.
  by case_decide; [congruence|].
Qed.

Lemma delete_movie_cases movie_id db :
  (delete_movie movie_id db).2 = db ∨
  (delete_movie movie_id db).2
    = db_set_movies db (filter (λ m, MovieModel.id m ≠ movie_id) (db_movies db)).
Proof.
  unfold delete_movie. rewrite bind_unfold. simpl. rewrite bind_unfold.
  destruct (filter _ (db_movies db)) as [|m [|m' ms]] eqn:Hf; simpl; auto.
  right. unfold delete_commit. rewrite ?bind_unfold. simpl.
  assert (m ∈ filter (λ m, MovieModel.id m = movie_id) (db_movies db)) as Hin
    by (rewrite Hf; left).
  apply list_elem_of_filter in Hin as [-> _]. done.
Qed.

Lemma update_movie_cases movie_id data db :
  (update_movie movie_id data db).2 = db ∨
  ∃ movie',
    MovieModel.id movie' = movie_id ∧
    (update_movie movie_id data db).2
      = db_set_movies db
          ((λ m, if decide (MovieModel.id m = movie_id) then movie' else m) <$> db_movies db).
Proof.
  destruct (filter (λ m, MovieModel.id m = movie_id) (db_movies db))
    as [|m [|m' ms]] eqn:Hf.
  - left. unfold update_movie. rewrite bind_unfold. simpl. by rewrite bind_unfold, Hf.
  - right. destruct (update_movie_run movie_id data db m Hf) as (Hrun & Hid & _).
    eexists. split; [exact Hid|]. by rewrite Hrun.
  - left. unfold update_movie. rewrite bind_unfold. simpl. by rewrite bind_unfold, Hf.
Qed.

(** X12. Updates and deletes keep the store well formed, whatever they
    answer: keyed reference tables stay keyed and distinct movie ids stay
    distinct after any update request and any delete, and a delete also
    keeps (name, date) pairs distinct. *)
Theorem update_delete_keep_invariants movie_id body db :
  refs_wf db → ids_unique db →
  (refs_wf (PATCH_movie movie_id body db).2 ∧ ids_unique (PATCH_movie movie_id body db).2) ∧
  (refs_wf (delete_movie movie_id db).2 ∧ ids_unique (delete_movie movie_id db).2 ∧
   (movies_unique db → movies_unique (delete_movie movie_id db).2)).
Proof.
  intros Hwf Hids. split.
  - unfold PATCH_movie. destruct (MovieUpdateSchema.errors body); [|done].
    destruct (update_movie_cases movie_id body db) as [->|(movie' & Hid & ->)]; [done|].
    split.
    + intros model. rewrite db_table_set_movies. apply Hwf.
    + unfold ids_unique. simpl. by rewrite replace_keeps_ids.
  - destruct (delete_movie_cases movie_id db) as [->| ->]; [done|].
    split_and!.
    + intros model. rewrite db_table_set_movies. apply Hwf.
    + unfold ids_unique. simpl. by apply NoDup_fmap_filter.
    + unfold movies_unique. simpl. by apply NoDup_fmap_filter.
Qed.

Lemma update_delete_keep_invariants_witness :
  ids_unique (PATCH_movie 1 Sample.rescore Sample.stored).2 ∧
  ids_unique (delete_movie 1 Sample.stored).2.
Proof.
  destruct (update_delete_keep_invariants 1 Sample.rescore Sample.stored)
    as ((_ & Hu) & (_ & Hd & _)).
  - exact (proj1 stored_invariants).
  - exact (proj1 (proj2 stored_invariants)).
  - split; [exact Hu|exact Hd].
Defined.

(** ** Create only adds *)

Lemma get_or_create_grows model kwargs db :
  grows db (get_or_create model kwargs db).2.
Proof.
  unfold get_or_create. rewrite bind_unfold. simpl. rewrite bind_unfold.
  destruct (filter _ _) as [|r [|r' l]]; simpl; try (split; done).
  split.
  - intros model'. destruct (decide (model' = model)) as [->|Hne].
    + rewrite db_table_set. by apply prefix_app_r.
    + by rewrite db_table_set_ne.
  - by rewrite db_movies_set_table.
Qed.

Lemma grows_trans db1 db2 db3 : grows db1 db2 → grows db2 db3 → grows db1 db3.
Proof.
  intros [H1 M1] [H2 M2]. split.
  - intros model. transitivity (db_table db2 model); [apply H1|apply H2].
  - by transitivity (db_movies db2).
Qed.

Lemma mapM_get_or_create_grows model (kw : string → gmap string value) names db :
  grows db (mapM (λ g, get_or_create model (kw g)) names db).2.
Proof.
  revert db. induction names as [|g names IH]; intros db; [by split|].
  rewrite mapM_handler_cons.
  pose proof (get_or_create_grows model (kw g) db) as H1.
  destruct (get_or_create model (kw g) db) as [[e|r] db1]; [done|].
  pose proof (IH db1) as H2.
  destruct (mapM (M:=Handler) _ names db1) as [[e|rows] db2]; simpl in *;
    by eapply grows_trans.
Qed.

(** X13. A create request never removes or rewrites what is stored,
    whatever it answers: every table after the request starts with the rows
    it held before, unchanged and in place. *)
Theorem POST_movies_only_adds today body db :
  (∀ model, db_table db model `prefix_of` db_table (POST_movies today body db).2 model) ∧
  db_movies db `prefix_of` db_movies (POST_movies today body db).2.
Proof.
  change (grows db (POST_movies today body db).2).
  unfold POST_movies. destruct (MovieCreateSchema.errors body); [|by split].
  destruct body as [name date score overview status budget revenue country genres actors
                      languages].
  unfold create_movie. case_decide; [by split|].
  rewrite bind_unfold. simpl. rewrite bind_unfold.
  destruct (filter _ (db_movies db)) as [|m [|m' ms]]; simpl; try (by split).
  rewrite bind_unfold.
  pose proof (get_or_create_grows CountryModel {[ "code" := VStr country ]} db) as H1.
  destruct (get_or_create _ _ db) as [[e1|c] db1]; [done|]. simpl in H1.
  rewrite bind_unfold.
  pose proof (mapM_get_or_create_grows GenreModel (λ g, {[ "name" := VStr g ]}) genres db1)
    as H2.
  destruct (mapM (M:=Handler) _ genres db1) as [[e2|gs] db2]; simpl in H2;
    [by eapply grows_trans|].
  rewrite bind_unfold.
  pose proof (mapM_get_or_create_grows ActorModel (λ g, {[ "name" := VStr g ]}) actors db2)
    as H3.
  destruct (mapM (M:=Handler) _ actors db2) as [[e3|acs] db3]; simpl in H3;
    [eapply grows_trans; [|exact H3]; by eapply grows_trans|].
  rewrite bind_unfold.
  pose proof (mapM_get_or_create_grows LanguageModel (λ g, {[ "name" := VStr g ]})
                languages db3) as H4.
  assert (grows db db3) as H03 by (eapply grows_trans; [|exact H3]; by eapply grows_trans).
  destruct (mapM (M:=Handler) _ languages db3) as [[e4|ls] db4]; simpl in H4;
    [by eapply grows_trans|].
  assert (grows db db4) as [Ht Hm] by (by eapply grows_trans).
  rewrite bind_unfold. simpl. rewrite bind_unfold. simpl.
  match goal with |- grows _ (scalar_one ?rows ?d).2 =>
    assert ((scalar_one rows d).2 = d) as -> by (by destruct rows as [|? [|? ?]])
  end.
  split.
  - intros model. rewrite db_table_set_movies. apply Ht.
  - simpl. etrans; [exact Hm|]. by apply prefix_app_r.
Qed.

(** ** A delete frees the name and date *)

Lemma movies_unique_inj db m1 m2 name date :
  movies_unique db → m1 ∈ db_movies db → m2 ∈ db_movies db →
  same_name_date name date m1 → same_name_date name date m2 → m1 = m2.
Proof.
  intros Hu [i Hi]%list_elem_of_lookup [j Hj]%list_elem_of_lookup [Hn1 Hd1] [Hn2 Hd2].
  assert (i = j) as ->; [|congruence].
  eapply NoDup_lookup; [exact Hu| |]; rewrite list_lookup_fmap.
  - by rewrite Hi.
  - rewrite Hj. simpl. by rewrite Hn1, Hd1, Hn2, Hd2.
Qed.

(** X14. A delete frees the name and date of the movie it removes: on a
    well-formed store, after the movie that carries a (name, date) pair has
    been deleted, a create with that pair and a date within 365 days
    succeeds instead of being refused with the 409. *)
Theorem delete_then_create today data db movie :
  refs_wf db → movies_unique db →
  MovieCreateSchema.date data ≤ today + 365 →
  filter (λ m, MovieModel.id m = MovieModel.id movie) (db_movies db) = [movie] →
  same_name_date (MovieCreateSchema.name data) (MovieCreateSchema.date data) movie →
  create_movie today data db =
    (inl (HTTPException 409
            (conflict_detail (MovieCreateSchema.name data) (MovieCreateSchema.date data))),
     db) ∧
  ∃ db1 created db2,
    delete_movie (MovieModel.id movie) db = (inr tt, db1) ∧
    create_movie today data db1 = (inr created, db2).
Proof.
  intros Hwf Hu Hd Hf Hs.
  assert (movie ∈ db_movies db) as Hin.
  { assert (movie ∈ filter (λ m, MovieModel.id m = MovieModel.id movie) (db_movies db))
      as Hin by (rewrite Hf; left).
    by apply list_elem_of_filter in Hin as [_ ?]. }
  split.
  { eapply create_movie_existing; [done|]. by apply movies_unique_filter. }
  eexists _. 
  assert (delete_movie (MovieModel.id movie) db
          = (inr tt, db_set_movies db
               (filter (λ m, MovieModel.id m ≠ MovieModel.id movie) (db_movies db)))) as Hdel.
  { unfold delete_movie. rewrite bind_unfold. simpl. rewrite bind_unfold, Hf. simpl.
    unfold delete_commit. by rewrite bind_unfold. }
  destruct (create_movie_stored today data
              (db_set_movies db
                 (filter (λ m, MovieModel.id m ≠ MovieModel.id movie) (db_movies db))))
    as (created & new & db2 & Hrun & _); [| done | |].
  - intros model. rewrite db_table_set_movies. apply Hwf.
  - simpl. intros m [Hne Hm]%list_elem_of_filter Hsm. apply Hne.
    by rewrite (movies_unique_inj db m movie _ _ Hu Hm Hin Hsm Hs).
  - exists created, db2. split; [exact Hdel|exact Hrun].
Qed.

Lemma stored_movie_dune :
  ∃ movie,
    filter (λ m, MovieModel.id m = MovieModel.id movie) (db_movies Sample.stored) = [movie] ∧
    same_name_date (MovieCreateSchema.name Sample.dune)
      (MovieCreateSchema.date Sample.dune) movie.
Proof.
  exists (MovieModel.mk 1 (created_cols Sample.dune) 1 [1; 2] [1] [1]).
  split; [vm_compute; reflexivity|]. split; vm_compute; reflexivity.
Qed.

Lemma delete_then_create_witness :
  ∃ movie db1 created db2,
    create_movie Sample.today Sample.dune Sample.stored =
      (inl (HTTPException 409
              (conflict_detail (MovieCreateSchema.name Sample.dune)
                 (MovieCreateSchema.date Sample.dune))), Sample.stored) ∧
    delete_movie (MovieModel.id movie) Sample.stored = (inr tt, db1) ∧
    create_movie Sample.today Sample.dune db1 = (inr created, db2).
Proof.
  destruct stored_movie_dune as (movie & Hf & Hs).
  destruct (delete_then_create Sample.today Sample.dune Sample.stored movie
              (proj1 stored_invariants) (proj2 (proj2 stored_invariants)))
    as (Hconf & db1 & created & db2 & Hdel & Hrun).
  - vm_compute; discriminate.
  - exact Hf.
  - exact Hs.
  - exists movie, db1, created, db2. split_and!; [exact Hconf|exact Hdel|exact Hrun].
Defined.
